(** * Tool-call dispatch of the live-API hook: handlers and dispatcher

    A shallow embedding of [fetchVoucherStatus], [submitDailyReport] and
    [onToolCall] (the [toolcall] listener registered by [useLiveApi]),
    together with the JavaScript built-ins they rely on, and the properties
    of the specification proved or refuted on that embedding.

    Modelling conventions.
    - A JavaScript string is a Rocq [string]; every [ascii] is one code unit
      below 256.  Case mapping is modelled on the ASCII letters, which is all
      the fixtures of the handlers contain.
    - A number is an integer ([Z]).  The counts of the tool schema and the
      millisecond clock are integers; fractional literals, signed zero and
      the exponent notation of large magnitudes are outside the model.
    - [fc.args] is data deserialised from the wire: either missing
      ([undefined], here [None]) or a JSON value ([Json]), which by
      construction holds no [undefined], function or cycle.
    - An object is the list of its own properties in property order. *)

From Stdlib Require Import List String Ascii ZArith NArith Bool Lia.
From Stdlib Require Import Permutation DecimalString DecimalZ DecimalPos DecimalFacts.
Import ListNotations.
Local Open Scope string_scope.
Local Open Scope Z_scope.

(** ** JSON values *)

Unset Elimination Schemes.
Inductive Json : Type :=
| JNull
| JBool (b : bool)
| JNum (n : Z)
| JStr (s : string)
| JArr (items : list Json)
| JObj (props : list (string * Json)).
Set Elimination Schemes.

(** Induction over a value and, nested, over the items of an array and the
    property values of an object. *)
Section JsonInduction.
Variable P : Json -> Prop.
Hypothesis Hnull : P JNull.
Hypothesis Hbool : forall b, P (JBool b).
Hypothesis Hnum : forall n, P (JNum n).
Hypothesis Hstr : forall s, P (JStr s).
Hypothesis Harr : forall items, Forall P items -> P (JArr items).
Hypothesis Hobj : forall props, Forall (fun kv => P (snd kv)) props -> P (JObj props).

Fixpoint Json_ind (v : Json) : P v :=
  match v with
  | JNull => Hnull
  | JBool b => Hbool b
  | JNum n => Hnum n
  | JStr s => Hstr s
  | JArr items =>
      Harr items
        ((fix all (l : list Json) : Forall P l :=
            match l with
            | [] => Forall_nil P
            | x :: r => Forall_cons x (Json_ind x) (all r)
            end) items)
  | JObj props =>
      Hobj props
        ((fix all (l : list (string * Json)) : Forall (fun kv => P (snd kv)) l :=
            match l with
            | [] => Forall_nil _
            | kv :: r => Forall_cons kv (Json_ind (snd kv)) (all r)
            end) props)
  end.
End JsonInduction.

(** A JavaScript value as the handlers see it: [None] is [undefined]. *)
Definition JsValue : Type := option Json.
Definition undefined : JsValue := None.

(** ** Completions: a result or a thrown exception *)

Inductive JsError : Type :=
| TypeError (msg : string).

Inductive Completion (A : Type) : Type :=
| Normal (a : A)
| Throw (e : JsError).
Arguments Normal {A} a.
Arguments Throw {A} e.

Definition bind {A B : Type} (c : Completion A) (k : A -> Completion B) : Completion B :=
  match c with
  | Normal a => k a
  | Throw e => Throw e
  end.

Notation "x <- c ;; k" := (bind c (fun x => k))
  (at level 61, c at next level, right associativity).

(** [try { body } catch (error) { handler }] *)
Definition try_catch {A : Type} (body : Completion A) (handler : JsError -> Completion A)
  : Completion A :=
  match body with
  | Normal a => Normal a
  | Throw e => handler e
  end.

(** ** Built-ins used by the handlers *)

Definition is_lower (c : ascii) : bool :=
  ((97 <=? N_of_ascii c) && (N_of_ascii c <=? 122))%N.
Definition is_upper (c : ascii) : bool :=
  ((65 <=? N_of_ascii c) && (N_of_ascii c <=? 90))%N.

Definition upper_unit (c : ascii) : ascii :=
  if is_lower c then ascii_of_N (N_of_ascii c - 32) else c.
Definition lower_unit (c : ascii) : ascii :=
  if is_upper c then ascii_of_N (N_of_ascii c + 32) else c.

(** [String.prototype.toUpperCase] and [toLowerCase]. *)
Fixpoint toUpperCase (s : string) : string :=
  match s with
  | EmptyString => EmptyString
  | String c r => String (upper_unit c) (toUpperCase r)
  end.
Fixpoint toLowerCase (s : string) : string :=
  match s with
  | EmptyString => EmptyString
  | String c r => String (lower_unit c) (toLowerCase r)
  end.

(** First own property named [k] of a property list. *)
Fixpoint lookup (k : string) (props : list (string * Json)) : JsValue :=
  match props with
  | [] => undefined
  | (k', v) :: r => if String.eqb k k' then Some v else lookup k r
  end.

(** The property list without any property named [k]. *)
Fixpoint delete (k : string) (props : list (string * Json)) : list (string * Json) :=
  match props with
  | [] => []
  | (k', v) :: r => if String.eqb k k' then delete k r else (k', v) :: delete k r
  end.

(** Reading a property of [undefined] or [null] throws; this is what both
    the destructuring [const { voucherId, customerEmail } = args] and
    [args.issuedVouchers] do first. *)
Definition RequireObjectCoercible (v : JsValue) : Completion Json :=
  match v with
  | None => Throw (TypeError "Cannot read properties of undefined")
  | Some JNull => Throw (TypeError "Cannot read properties of null")
  | Some o => Normal o
  end.

(** [o.k] for a property name that is neither an array index nor a
    built-in property, such as the names the handlers read ([voucherId],
    [customerEmail], [issuedVouchers]): only an object can have one. *)
Definition Get (o : Json) (k : string) : JsValue :=
  match o with
  | JObj props => lookup k props
  | _ => undefined
  end.

(** Truthiness, as tested by [if (voucherId)]. *)
Definition ToBoolean (v : JsValue) : bool :=
  match v with
  | None => false
  | Some JNull => false
  | Some (JBool b) => b
  | Some (JNum n) => negb (n =? 0)
  | Some (JStr s) => negb (String.eqb s "")
  | Some (JArr _) => true
  | Some (JObj _) => true
  end.

(** [v.toUpperCase()] and [v.toLowerCase()]: a method of strings only;
    calling it on any other value throws. *)
Definition call_toUpperCase (v : JsValue) : Completion string :=
  match v with
  | Some (JStr s) => Normal (toUpperCase s)
  | _ => Throw (TypeError "toUpperCase is not a function")
  end.
Definition call_toLowerCase (v : JsValue) : Completion string :=
  match v with
  | Some (JStr s) => Normal (toLowerCase s)
  | _ => Throw (TypeError "toLowerCase is not a function")
  end.

(** [typeof v !== 'number' || v < 0] *)
Definition not_a_number_or_negative (v : JsValue) : bool :=
  match v with
  | Some (JNum n) => n <? 0
  | _ => true
  end.

(** Decimal rendering of an integer, as [JSON.stringify] and a template
    literal give it. JavaScript writes magnitudes from 10^21 on with an
    exponent; the clock and the safe integers stay far below. *)
Definition Number_toString (n : Z) : string :=
  NilEmpty.string_of_int (Z.to_int n).

(** ** The handlers *)

Definition voucher_active : Json :=
  JObj [("status", JStr "active"); ("discount", JStr "25%"); ("expires", JStr "2024-12-31")].
Definition voucher_expired : Json :=
  JObj [("status", JStr "expired"); ("reason", JStr "Voucher has passed its expiry date.")].
Definition loyalty_active : Json :=
  JObj [("status", JStr "active"); ("discount", JStr "10% loyalty voucher");
        ("expires", JStr "2025-01-31")].
Definition loyalty_redeemed : Json :=
  JObj [("status", JStr "expired");
        ("reason", JStr "Voucher was a one-time use and has been redeemed.")].
Definition not_found : Json :=
  JObj [("status", JStr "not_found");
        ("message", JStr "No voucher could be found with the provided details.")].

(** The part of [fetchVoucherStatus] from [if (customerEmail)] to the end. *)
Definition fetchVoucherStatus_by_email (customerEmail : JsValue) : Completion Json :=
  if ToBoolean customerEmail then
    email <- call_toLowerCase customerEmail ;;
    if String.eqb email "active@example.com" then Normal loyalty_active
    else if String.eqb email "expired@example.com" then Normal loyalty_redeemed
    else Normal not_found
  else Normal not_found.

(** [fetchVoucherStatus], after its simulated delay of
    [fetchVoucherStatus_delay] milliseconds. *)
Definition fetchVoucherStatus_delay : Z := 800.

Definition fetchVoucherStatus (args : JsValue) : Completion Json :=
  o <- RequireObjectCoercible args ;;
  let voucherId := Get o "voucherId" in
  let customerEmail := Get o "customerEmail" in
  if ToBoolean voucherId then
    u <- call_toUpperCase voucherId ;;
    if String.eqb u "VOUCHER123" then Normal voucher_active
    else
      u' <- call_toUpperCase voucherId ;;
      if String.eqb u' "EXPIRED456" then Normal voucher_expired
      else fetchVoucherStatus_by_email customerEmail
  else fetchVoucherStatus_by_email customerEmail.

Definition invalid_report : Json :=
  JObj [("status", JStr "error"); ("message", JStr "Invalid number of issued vouchers.")].

(** [submitDailyReport], after its simulated delay of
    [submitDailyReport_delay] milliseconds; [now] is what
    [new Date().getTime()] reads when the body resumes. *)
Definition submitDailyReport_delay : Z := 600.

Definition submitDailyReport (now : Z) (args : JsValue) : Completion Json :=
  o <- RequireObjectCoercible args ;;
  if not_a_number_or_negative (Get o "issuedVouchers") then Normal invalid_report
  else
    let reportId := "report_" ++ Number_toString now in
    Normal (JObj [("status", JStr "success");
                  ("message", JStr ("Report successfully submitted with ID: " ++ reportId ++ "."));
                  ("reportId", JStr reportId);
                  ("submittedData", o)]).

(** ** [JSON.stringify] *)

Definition dquote : ascii := "034"%char.
Definition backslash : ascii := "092"%char.

Definition hex_digit (n : N) : ascii :=
  if (n <? 10)%N then ascii_of_N (48 + n) else ascii_of_N (87 + n).

(** One code unit of a quoted string (QuoteJSONString). *)
Definition escape_unit (c : ascii) : string :=
  let n := N_of_ascii c in
  if (n =? 8)%N then "\b"
  else if (n =? 9)%N then "\t"
  else if (n =? 10)%N then "\n"
  else if (n =? 12)%N then "\f"
  else if (n =? 13)%N then "\r"
  else if (n =? 34)%N then String backslash (String dquote "")
  else if (n =? 92)%N then "\\"
  else if (n <? 32)%N then
    "\u00" ++ String (hex_digit (n / 16)) (String (hex_digit (n mod 16)) "")
  else String c "".

Fixpoint escape_units (s : string) : string :=
  match s with
  | EmptyString => EmptyString
  | String c r => escape_unit c ++ escape_units r
  end.

Definition QuoteJSONString (s : string) : string :=
  String dquote (escape_units s ++ String dquote "").

(** [JSON.stringify(v)] without indentation. *)
Fixpoint JSON_stringify (v : Json) : string :=
  match v with
  | JNull => "null"
  | JBool true => "true"
  | JBool false => "false"
  | JNum n => Number_toString n
  | JStr s => QuoteJSONString s
  | JArr items => "[" ++ String.concat "," (map JSON_stringify items) ++ "]"
  | JObj props =>
      "{" ++ String.concat ","
               (map (fun kv => QuoteJSONString (fst kv) ++ ":" ++ JSON_stringify (snd kv)) props)
          ++ "}"
  end.

(** ** [JSON.parse]

    [None] stands for a [SyntaxError], and also for a text that denotes a
    value outside the model (a number with a fraction or an exponent, a
    [\u] escape of a code unit above 255). *)

Definition is_ws (c : ascii) : bool :=
  let n := N_of_ascii c in
  ((n =? 32) || (n =? 9) || (n =? 10) || (n =? 13))%N.

Fixpoint skip_ws (s : string) : string :=
  match s with
  | String c r => if is_ws c then skip_ws r else s
  | EmptyString => EmptyString
  end.

Definition is_digit (c : ascii) : bool :=
  ((48 <=? N_of_ascii c) && (N_of_ascii c <=? 57))%N.

Definition hex_value (c : ascii) : option N :=
  let n := N_of_ascii c in
  if is_digit c then Some (n - 48)%N
  else if ((97 <=? n) && (n <=? 102))%N then Some (n - 87)%N
  else if ((65 <=? n) && (n <=? 70))%N then Some (n - 55)%N
  else None.

Definition unescape_simple (e : ascii) : option ascii :=
  let n := N_of_ascii e in
  if (n =? 34)%N then Some dquote
  else if (n =? 92)%N then Some backslash
  else if (n =? 47)%N then Some "/"%char
  else if (n =? 98)%N then Some "008"%char
  else if (n =? 102)%N then Some "012"%char
  else if (n =? 110)%N then Some "010"%char
  else if (n =? 114)%N then Some "013"%char
  else if (n =? 116)%N then Some "009"%char
  else None.

Definition unescape_hex (h1 h2 h3 h4 : ascii) : option ascii :=
  match hex_value h1, hex_value h2, hex_value h3, hex_value h4 with
  | Some a, Some b, Some c, Some d =>
      if ((a =? 0) && (b =? 0))%N then Some (ascii_of_N (16 * c + d)) else None
  | _, _, _, _ => None
  end.

Definition cons_unit (c : ascii) (r : option (string * string)) : option (string * string) :=
  match r with
  | Some (s, rest) => Some (String c s, rest)
  | None => None
  end.

(** The code units of a string literal after its opening quote, and the
    text after its closing quote. *)
Fixpoint parse_string_body (s : string) : option (string * string) :=
  match s with
  | EmptyString => None
  | String c r =>
      if Ascii.eqb c dquote then Some (EmptyString, r)
      else if Ascii.eqb c backslash then
        match r with
        | String e r1 =>
            if Ascii.eqb e "u"%char then
              match r1 with
              | String h1 (String h2 (String h3 (String h4 r2))) =>
                  match unescape_hex h1 h2 h3 h4 with
                  | Some u => cons_unit u (parse_string_body r2)
                  | None => None
                  end
              | _ => None
              end
            else
              match unescape_simple e with
              | Some u => cons_unit u (parse_string_body r1)
              | None => None
              end
        | EmptyString => None
        end
      else if (N_of_ascii c <? 32)%N then None
      else cons_unit c (parse_string_body r)
  end.

Definition parse_string (s : string) : option (string * string) :=
  match s with
  | String c r => if Ascii.eqb c dquote then parse_string_body r else None
  | EmptyString => None
  end.

(** The longest prefix of digits, and the rest. *)
Fixpoint span_digits (s : string) : string * string :=
  match s with
  | String c r =>
      if is_digit c then let (ds, rest) := span_digits r in (String c ds, rest)
      else (EmptyString, s)
  | EmptyString => (EmptyString, EmptyString)
  end.

Definition starts_fraction_or_exponent (s : string) : bool :=
  match s with
  | String c _ => Ascii.eqb c "."%char || Ascii.eqb c "e"%char || Ascii.eqb c "E"%char
  | EmptyString => false
  end.

Definition parse_digits (negative : bool) (s : string) : option (Z * string) :=
  let (ds, rest) := span_digits s in
  match ds with
  | EmptyString => None
  | String c more =>
      if Ascii.eqb c "0"%char && negb (String.eqb more "") then None
      else if starts_fraction_or_exponent rest then None
      else
        match NilEmpty.uint_of_string ds with
        | Some u => Some (Z.of_int (if negative then Decimal.Neg u else Decimal.Pos u), rest)
        | None => None
        end
  end.

Definition parse_number (s : string) : option (Z * string) :=
  match s with
  | String c r => if Ascii.eqb c "-"%char then parse_digits true r else parse_digits false s
  | EmptyString => None
  end.

(** [s] without the prefix [p], when it has it. *)
Fixpoint strip_prefix (p s : string) : option string :=
  match p with
  | EmptyString => Some s
  | String c p' =>
      match s with
      | String d s' => if Ascii.eqb c d then strip_prefix p' s' else None
      | EmptyString => None
      end
  end.

Definition parse_literal (word : string) (v : Json) (s : string) : option (Json * string) :=
  match strip_prefix word s with
  | Some rest => Some (v, rest)
  | None => None
  end.

(** Defining property [k] on an object under construction: a repeated name
    keeps its place and takes the later value. *)
Fixpoint define_prop (k : string) (v : Json) (props : list (string * Json))
  : list (string * Json) :=
  match props with
  | [] => [(k, v)]
  | (k', v') :: r => if String.eqb k k' then (k', v) :: r else (k', v') :: define_prop k v r
  end.

Definition build_object (members : list (string * Json)) : Json :=
  JObj (fold_left (fun props kv => define_prop (fst kv) (snd kv) props) members []).

(** Recursive descent; [fuel] bounds the nesting and the number of items,
    and the length of the text is always enough (see [JSON_parse]). *)
Fixpoint parse_value (fuel : nat) (s : string) : option (Json * string) :=
  match fuel with
  | O => None
  | S fuel' =>
      match skip_ws s with
      | EmptyString => None
      | String c r =>
          if Ascii.eqb c "n"%char then parse_literal "ull" JNull r
          else if Ascii.eqb c "t"%char then parse_literal "rue" (JBool true) r
          else if Ascii.eqb c "f"%char then parse_literal "alse" (JBool false) r
          else if Ascii.eqb c dquote then
            match parse_string_body r with
            | Some (str, rest) => Some (JStr str, rest)
            | None => None
            end
          else if Ascii.eqb c "["%char then
            match skip_ws r with
            | String d r' =>
                if Ascii.eqb d "]"%char then Some (JArr [], r')
                else
                  match parse_elements fuel' r with
                  | Some (items, rest) => Some (JArr items, rest)
                  | None => None
                  end
            | EmptyString => None
            end
          else if Ascii.eqb c "{"%char then
            match skip_ws r with
            | String d r' =>
                if Ascii.eqb d "}"%char then Some (JObj [], r')
                else
                  match parse_members fuel' r with
                  | Some (members, rest) => Some (build_object members, rest)
                  | None => None
                  end
            | EmptyString => None
            end
          else
            match parse_number (String c r) with
            | Some (n, rest) => Some (JNum n, rest)
            | None => None
            end
      end
  end

with parse_elements (fuel : nat) (s : string) : option (list Json * string) :=
  match fuel with
  | O => None
  | S fuel' =>
      match parse_value fuel' s with
      | Some (v, r) =>
          match skip_ws r with
          | String d r' =>
              if Ascii.eqb d ","%char then
                match parse_elements fuel' r' with
                | Some (vs, rest) => Some (v :: vs, rest)
                | None => None
                end
              else if Ascii.eqb d "]"%char then Some ([v], r')
              else None
          | EmptyString => None
          end
      | None => None
      end
  end

with parse_members (fuel : nat) (s : string) : option (list (string * Json) * string) :=
  match fuel with
  | O => None
  | S fuel' =>
      match parse_string (skip_ws s) with
      | Some (k, r) =>
          match skip_ws r with
          | String colon r0 =>
              if Ascii.eqb colon ":"%char then
                match parse_value fuel' r0 with
                | Some (v, r1) =>
                    match skip_ws r1 with
                    | String d r' =>
                        if Ascii.eqb d ","%char then
                          match parse_members fuel' r' with
                          | Some (kvs, rest) => Some ((k, v) :: kvs, rest)
                          | None => None
                          end
                        else if Ascii.eqb d "}"%char then Some ([(k, v)], r')
                        else None
                    | EmptyString => None
                    end
                | None => None
                end
              else None
          | EmptyString => None
          end
      | None => None
      end
  end.

(** [JSON.parse(text)]: one value, then nothing but white space. *)
Definition JSON_parse (text : string) : option Json :=
  match parse_value (S (String.length text)) text with
  | Some (v, rest) =>
      match skip_ws rest with
      | EmptyString => Some v
      | String _ _ => None
      end
  | None => None
  end.

(** ** The tool tables *)

Inductive FunctionResponseScheduling : Type :=
| SCHEDULING_UNSPECIFIED
| SILENT
| WHEN_IDLE
| INTERRUPT.

(** An entry of a tool table (the type the source imports as
    [FunctionCall] from its state module). *)
Record ToolDeclaration : Type := {
  name : string;
  description : string;
  parameters : Json;
  isEnabled : bool;
  scheduling : FunctionResponseScheduling
}.

Definition string_property (text : string) : Json :=
  JObj [("type", JStr "STRING"); ("description", JStr text)].
Definition number_property (text : string) : Json :=
  JObj [("type", JStr "NUMBER"); ("description", JStr text)].

Definition claim_refund : ToolDeclaration := {|
  name := "claim_refund";
  description :=
    "Starts the refund process for a voucher, collecting necessary details from the user.";
  parameters :=
    JObj [("type", JStr "OBJECT");
          ("properties",
           JObj [("voucherId", string_property "The ID of the voucher to be returned.");
                 ("reason", string_property "The reason the user is asking for a refund.")]);
          ("required", JArr [JStr "voucherId"; JStr "reason"])];
  isEnabled := true;
  scheduling := INTERRUPT
|}.

Definition speak_to_representative : ToolDeclaration := {|
  name := "speak_to_representative";
  description := "Escalates the conversation to a human customer support representative.";
  parameters :=
    JObj [("type", JStr "OBJECT");
          ("properties",
           JObj [("reason",
                  string_property
                    "A brief summary of the user's issue for the representative.")]);
          ("required", JArr [JStr "reason"])];
  isEnabled := true;
  scheduling := INTERRUPT
|}.

Definition get_voucher_status : ToolDeclaration := {|
  name := "get_voucher_status";
  description :=
    "Gets the status of a voucher using either the voucher ID or the customer's email address. Ask for one of these if not provided.";
  parameters :=
    JObj [("type", JStr "OBJECT");
          ("properties",
           JObj [("voucherId", string_property "The ID of the voucher to check.");
                 ("customerEmail",
                  string_property "The email of the customer who owns the voucher.")])];
  isEnabled := true;
  scheduling := INTERRUPT
|}.

Definition insert_daily_report : ToolDeclaration := {|
  name := "insert_daily_report";
  description :=
    "Inserts a daily sales report for an ambassador. The report includes the total number of vouchers issued, a breakdown of vouchers issued through partnerships, and any notes on issues encountered.";
  parameters :=
    JObj [("type", JStr "OBJECT");
          ("properties",
           JObj [("issuedVouchers", number_property "Total number of vouchers issued today.");
                 ("partnershipVouchers",
                  JObj [("type", JStr "ARRAY");
                        ("description", JStr "A list of vouchers issued in partnership.");
                        ("items",
                         JObj [("type", JStr "OBJECT");
                               ("properties",
                                JObj [("partnerName",
                                       string_property "The name of the partner.");
                                      ("voucherCount",
                                       number_property
                                         "The number of vouchers issued with this partner.")]);
                               ("required", JArr [JStr "partnerName"; JStr "voucherCount"])])]);
                 ("issuesNote",
                  string_property
                    "An optional note about any issues or problems encountered during the day.")]);
          ("required", JArr [JStr "issuedVouchers"])];
  isEnabled := true;
  scheduling := INTERRUPT
|}.

Definition AVAILABLE_TOOLS : list ToolDeclaration :=
  [claim_refund; speak_to_representative].

Definition customerSupportTools : list ToolDeclaration :=
  [claim_refund; speak_to_representative; get_voucher_status; insert_daily_report].

(** ** The dispatcher: [onToolCall] *)

(** One entry of [toolCall.functionCalls]. *)
Record FunctionCall : Type := {
  fc_id : string;
  fc_name : string;
  fc_args : JsValue
}.

(** One entry of [functionResponses]; [fr_result] is [response.result]. *)
Record FunctionResponse : Type := {
  fr_id : string;
  fr_name : string;
  fr_result : string
}.

Definition fetch_failed : Json :=
  JObj [("error", JStr "An error occurred while fetching the voucher status.")].
Definition submit_failed : Json :=
  JObj [("error", JStr "An error occurred while submitting the daily report.")].
Definition default_ok : Json :=
  JObj [("result", JStr "ok")].

(** The timer the callback of [fc] awaits before anything else happens to
    its result: the simulated delay of the handler it calls, none for the
    fallback branch, which holds no [await]. *)
Definition awaited_delay (fc : FunctionCall) : option Z :=
  if String.eqb (fc_name fc) "get_voucher_status" then Some fetchVoucherStatus_delay
  else if String.eqb (fc_name fc) "insert_daily_report" then Some submitDailyReport_delay
  else None.

(** The value assigned to [functionResult]: the three branches on
    [fc.name], each handler call inside its [try]/[catch].  [now] is the
    clock when the handler body runs. *)
Definition functionResult (now : Z) (fc : FunctionCall) : Completion Json :=
  if String.eqb (fc_name fc) "get_voucher_status" then
    try_catch (fetchVoucherStatus (fc_args fc)) (fun _ => Normal fetch_failed)
  else if String.eqb (fc_name fc) "insert_daily_report" then
    try_catch (submitDailyReport now (fc_args fc)) (fun _ => Normal submit_failed)
  else Normal default_ok.

(** A pending [setTimeout]: when it is due, and the callback it resumes. *)
Record Timer : Type := {
  due : Z;
  task : FunctionCall
}.

(** The state the callbacks of one batch share. *)
Record Dispatch : Type := {
  clock : Z;
  timers : list Timer;
  functionResponses : list FunctionResponse
}.

(** Timers fire in order of due time, and in order of creation when due
    together: a new timer goes behind every timer due no later. *)
Fixpoint insert_timer (t : Timer) (queue : list Timer) : list Timer :=
  match queue with
  | [] => [t]
  | u :: r => if due u <=? due t then u :: insert_timer t r else t :: u :: r
  end.

Definition setTimeout (delay : Z) (fc : FunctionCall) (st : Dispatch) : Dispatch :=
  {| clock := clock st;
     timers := insert_timer {| due := clock st + delay; task := fc |} (timers st);
     functionResponses := functionResponses st |}.

(** The end of the callback: the handler has settled, [functionResult] is
    assigned and the response is pushed. *)
Definition settle (now : Z) (fc : FunctionCall) (responses : list FunctionResponse)
  : Completion (list FunctionResponse) :=
  result <- functionResult now fc ;;
  Normal (responses ++ [{| fr_id := fc_id fc;
                           fr_name := fc_name fc;
                           fr_result := JSON_stringify result |}])%list.

(** The callback of [map] up to its first [await]: either it suspends on
    the handler's timer, or (fallback branch) it runs to its end. *)
Definition start_callback (st : Dispatch) (fc : FunctionCall) : Completion Dispatch :=
  match awaited_delay fc with
  | Some delay => Normal (setTimeout delay fc st)
  | None =>
      responses <- settle (clock st) fc (functionResponses st) ;;
      Normal {| clock := clock st; timers := timers st; functionResponses := responses |}
  end.

(** [toolCall.functionCalls.map(async fc => ...)]: every callback is
    started, in order, before any timer can fire. *)
Fixpoint start_callbacks (calls : list FunctionCall) (st : Dispatch) : Completion Dispatch :=
  match calls with
  | [] => Normal st
  | fc :: rest => st' <- start_callback st fc ;; start_callbacks rest st'
  end.

(** The event loop until [Promise.all] settles: each timer, when due,
    resumes its callback, which runs to its end before the next timer
    fires.  No callback arms a further timer, so the queue only shrinks. *)
Fixpoint run_timers (queue : list Timer) (responses : list FunctionResponse)
  : Completion (list FunctionResponse) :=
  match queue with
  | [] => Normal responses
  | t :: rest =>
      responses' <- settle (due t) (task t) responses ;;
      run_timers rest responses'
  end.

(** What becomes of one [toolcall] event: the batch handed to
    [client.sendToolResponse], or the rejection of the listener's promise
    (a callback threw, [Promise.all] rejected, nothing was sent). *)
Inductive Outcome : Type :=
| Sent (responses : list FunctionResponse)
| Rejected (e : JsError).

(** [onToolCall] for an event that arrives when the clock reads [t0].
    Time is virtual: synchronous code takes none, a timer fires when due.
    The two [addTurn] log entries go to a store the dispatcher never reads
    and are left out. *)
Definition onToolCall (t0 : Z) (functionCalls : list FunctionCall) : Outcome :=
  let run :=
    st <- start_callbacks functionCalls
            {| clock := t0; timers := []; functionResponses := [] |} ;;
    run_timers (timers st) (functionResponses st) in
  match run with
  | Normal responses => Sent responses
  | Throw e => Rejected e
  end.

(** ** Notions the properties are stated with *)

(** [casing_of s t]: [t] is [s] with the case of any of its letters changed. *)
Inductive casing_of : string -> string -> Prop :=
| casing_empty : casing_of EmptyString EmptyString
| casing_unit (c d : ascii) (s t : string) :
    d = upper_unit c \/ d = lower_unit c ->
    casing_of s t ->
    casing_of (String c s) (String d t).

(** [unmatched known v]: the identifier [v] is missing, or is a string
    that is no casing of any of the [known] fixtures. *)
Definition unmatched (known : list string) (v : JsValue) : Prop :=
  match v with
  | None => True
  | Some (JStr s) => Forall (fun k => ~ casing_of k s) known
  | Some _ => False
  end.

(** *** Wire data *)

Definition MAX_SAFE_INTEGER : Z := 9007199254740991.

Fixpoint distinct (keys : list string) : bool :=
  match keys with
  | [] => true
  | k :: r => negb (existsb (String.eqb k) r) && distinct r
  end.

(** The JSON values a JavaScript engine builds from a wire message, within
    the model: property names differ within each object, numbers are safe
    integers. *)
Fixpoint wire_json (v : Json) : bool :=
  match v with
  | JNull | JBool _ | JStr _ => true
  | JNum n => Z.abs n <=? MAX_SAFE_INTEGER
  | JArr items => forallb wire_json items
  | JObj props =>
      distinct (map fst props) && forallb (fun kv => wire_json (snd kv)) props
  end.

(** [fc.args] of a request: missing, or a wire value. *)
Definition wire_args (args : JsValue) : bool :=
  match args with
  | None => true
  | Some v => wire_json v
  end.

(** *** Requests and their responses *)

(** The clock when the handler body of [fc] runs, for an event at [t0]. *)
Definition resumes_at (t0 : Z) (fc : FunctionCall) : Z :=
  match awaited_delay fc with
  | Some delay => t0 + delay
  | None => t0
  end.

(** The timer a request waits on, for an event at [t0]. *)
Definition timer_of (t0 : Z) (fc : FunctionCall) : Timer :=
  {| due := resumes_at t0 fc; task := fc |}.

(** [fr] is the response entry of request [fc]: it echoes the id and the
    name, and carries the serialised value the dispatch of [fc] produced. *)
Definition answers (t0 : Z) (fc : FunctionCall) (fr : FunctionResponse) : Prop :=
  fr_id fr = fc_id fc /\
  fr_name fr = fc_name fc /\
  exists result,
    functionResult (resumes_at t0 fc) fc = Normal result /\
    fr_result fr = JSON_stringify result.

Definition unawaited (fc : FunctionCall) : bool :=
  match awaited_delay fc with
  | None => true
  | Some _ => false
  end.

Definition awaits (delay : Z) (fc : FunctionCall) : bool :=
  match awaited_delay fc with
  | None => false
  | Some d => d =? delay
  end.

(** The requests of a batch in the order their callbacks finish. *)
Definition completion_order (batch : list FunctionCall) : list FunctionCall :=
  (filter unawaited batch
     ++ filter (awaits submitDailyReport_delay) batch
     ++ filter (awaits fetchVoucherStatus_delay) batch)%list.

(** The rank of a request in that order, and the batches in which no
    request comes after one of a higher rank. *)
Definition completion_rank (fc : FunctionCall) : nat :=
  match awaited_delay fc with
  | None => 0
  | Some d => if d =? submitDailyReport_delay then 1 else 2
  end.

Fixpoint ranks_ascend (batch : list FunctionCall) : bool :=
  match batch with
  | [] => true
  | fc :: rest =>
      forallb (fun fc' => Nat.leb (completion_rank fc) (completion_rank fc')) rest
      && ranks_ascend rest
  end.

(** The shape of the result [submitDailyReport] returns on success. *)
Definition report_accepted (reportId : string) (args : Json) : Json :=
  JObj [("status", JStr "success");
        ("message", JStr ("Report successfully submitted with ID: " ++ reportId ++ "."));
        ("reportId", JStr reportId);
        ("submittedData", args)].

(** *** Serialised text *)

(** The text of one member of a serialised object. *)
Definition member_text (kv : string * Json) : string :=
  QuoteJSONString (fst kv) ++ ":" ++ JSON_stringify (snd kv).

(** What the text after a serialised value starts with, inside a
    serialised array or object or at the end of the text. *)
Definition closes (rest : string) : bool :=
  match rest with
  | EmptyString => true
  | String c _ => Ascii.eqb c ","%char || Ascii.eqb c "]"%char || Ascii.eqb c "}"%char
  end.

(** A measure of a value that its parse needs as fuel and that the length
    of its text bounds. *)
Fixpoint nodes (v : Json) : nat :=
  match v with
  | JArr items => S (fold_right (fun x n => S (nodes x + n)) O items)
  | JObj props => S (fold_right (fun kv n => S (nodes (snd kv) + n)) O props)
  | _ => 1
  end.

(** The statement proved of each value by induction: enough fuel parses
    its text back, up to the text that follows. *)
Definition parses_back (v : Json) : Prop :=
  wire_json v = true ->
  forall fuel rest,
    (nodes v <= fuel)%nat ->
    closes rest = true ->
    parse_value fuel (JSON_stringify v ++ rest) = Some (v, rest).

(** *** Sample requests and batches *)

Definition call (id tool : string) (args : JsValue) : FunctionCall :=
  {| fc_id := id; fc_name := tool; fc_args := args |}.

Definition response (id tool : string) (result : Json) : FunctionResponse :=
  {| fr_id := id; fr_name := tool; fr_result := JSON_stringify result |}.

Definition unknown_id_known_email : Json :=
  JObj [("voucherId", JStr "UNKNOWN"); ("customerEmail", JStr "active@example.com")].

(** A look-up followed by a tool without a handler. *)
Definition slow_then_fast : list FunctionCall :=
  [call "a" "get_voucher_status" (Some (JObj [("voucherId", JStr "voucher123")]));
   call "b" "claim_refund" (Some (JObj [("voucherId", JStr "voucher123");
                                         ("reason", JStr "changed my mind")]))].

(** Two valid reports in one batch. *)
Definition two_reports : list FunctionCall :=
  [call "r1" "insert_daily_report" (Some (JObj [("issuedVouchers", JNum 1)]));
   call "r2" "insert_daily_report" (Some (JObj [("issuedVouchers", JNum 2)]))].

(** Two calls whose handlers throw (a [voucherId] that is a number, a
    report without arguments), followed by a call that succeeds. *)
Definition faulty_batch : list FunctionCall :=
  [call "x" "get_voucher_status" (Some (JObj [("voucherId", JNum 7)]));
   call "y" "insert_daily_report" None;
   call "z" "get_voucher_status" (Some (JObj [("customerEmail", JStr "Expired@Example.COM")]))].

(** A report with nested data and characters that need escaping, a
    look-up without arguments, a tool without a handler, a look-up by
    email. *)
Definition mixed_batch : list FunctionCall :=
  [call "m1" "insert_daily_report"
     (Some (JObj [("issuedVouchers", JNum 12);
                  ("partnershipVouchers",
                   JArr [JObj [("partnerName", JStr ("Roma " ++ String dquote "C:\shop"));
                               ("voucherCount", JNum 3)];
                         JObj [("partnerName", JStr "Bar Sport"); ("voucherCount", JNum 0)]]);
                  ("issuesNote", JStr "two readers offline")]));
   call "m2" "get_voucher_status" None;
   call "m3" "speak_to_representative" (Some (JObj [("reason", JStr "refund")]));
   call "m4" "get_voucher_status" (Some (JObj [("customerEmail", JStr "Active@Example.com")]))].

(** Evaluates the tests on concrete code units that a step of the parser
    leaves in the goal. *)
Ltac decide_units :=
  repeat match goal with
    | |- context [Ascii.eqb ?a ?b] =>
        let t := eval cbv in (Ascii.eqb a b) in
        match t with
        | true => change (Ascii.eqb a b) with true
        | false => change (Ascii.eqb a b) with false
        end
    | |- context [is_ws ?a] =>
        let t := eval cbv in (is_ws a) in
        match t with
        | true => change (is_ws a) with true
        | false => change (is_ws a) with false
        end
    end;
  cbv beta iota.

(** ** The log entries of [onToolCall] *)

(** The argument of one [addTurn] call. *)
Record LogTurn : Type := {
  turn_role : string;
  turn_text : string;
  turn_isFinal : bool
}.

Definition newline : string := String "010"%char "".

(** [JSON.stringify(v, null, 2)] for a value nested at [indent]: members
    and items go on lines of their own, two spaces deeper; an empty array
    or object stays closed on one line. *)
Fixpoint JSON_stringify_indent (indent : string) (v : Json) : string :=
  match v with
  | JArr [] => "[]"
  | JArr items =>
      let inner := indent ++ "  " in
      "[" ++ newline ++ inner
        ++ String.concat ("," ++ newline ++ inner) (map (JSON_stringify_indent inner) items)
        ++ newline ++ indent ++ "]"
  | JObj [] => "{}"
  | JObj props =>
      let inner := indent ++ "  " in
      "{" ++ newline ++ inner
        ++ String.concat ("," ++ newline ++ inner)
             (map (fun kv => QuoteJSONString (fst kv) ++ ": "
                               ++ JSON_stringify_indent inner (snd kv)) props)
        ++ newline ++ indent ++ "}"
  | _ => JSON_stringify v
  end.

(** [JSON.stringify(fc.args, null, 2)] inside a template literal: a
    missing [args] is rendered as the word [undefined]. *)
Definition args_text (args : JsValue) : string :=
  match args with
  | None => "undefined"
  | Some v => JSON_stringify_indent "" v
  end.

(** The entry logged when the callback of [fc] starts. *)
Definition trigger_turn (fc : FunctionCall) : LogTurn :=
  {| turn_role := "system";
     turn_text := "Triggering function call: **" ++ fc_name fc ++ "**" ++ newline
                    ++ "```json" ++ newline ++ args_text (fc_args fc) ++ newline ++ "```";
     turn_isFinal := true |}.

(** A response as an object: [{ id, name, response: { result } }]. *)
Definition entry_object (id tool : string) (result : Json) : Json :=
  JObj [("id", JStr id); ("name", JStr tool); ("response", JObj [("result", result)])].

(** One element of [parsedResponsesForLogging]: the response with its
    result parsed back, or the response as it is when parsing fails. *)
Definition parsed_for_logging (fr : FunctionResponse) : Json :=
  match JSON_parse (fr_result fr) with
  | Some result => entry_object (fr_id fr) (fr_name fr) result
  | None => entry_object (fr_id fr) (fr_name fr) (JStr (fr_result fr))
  end.

(** The entry logged once every callback has finished. *)
Definition summary_turn (responses : list FunctionResponse) : LogTurn :=
  {| turn_role := "system";
     turn_text := "Function call response:" ++ newline ++ "```json" ++ newline
                    ++ JSON_stringify_indent "" (JArr (map parsed_for_logging responses))
                    ++ newline ++ "```";
     turn_isFinal := true |}.

(** [start_callbacks] with the [addTurn] call that opens each callback. *)
Fixpoint start_callbacks_logged (calls : list FunctionCall) (st : Dispatch)
    (turns : list LogTurn) : list LogTurn * Completion Dispatch :=
  match calls with
  | [] => (turns, Normal st)
  | fc :: rest =>
      let turns' := (turns ++ [trigger_turn fc])%list in
      match start_callback st fc with
      | Normal st' => start_callbacks_logged rest st' turns'
      | Throw e => (turns', Throw e)
      end
  end.

(** [onToolCall] with the sequence of [addTurn] calls it makes: a trigger
    entry per callback, and the summary entry, logged before the batch is
    sent when [functionResponses.length > 0]. *)
Definition onToolCall_logged (t0 : Z) (functionCalls : list FunctionCall)
  : list LogTurn * Outcome :=
  let (turns, started) :=
    start_callbacks_logged functionCalls
      {| clock := t0; timers := []; functionResponses := [] |} [] in
  match (st <- started ;; run_timers (timers st) (functionResponses st)) with
  | Normal responses =>
      (match responses with
       | [] => turns
       | _ :: _ => (turns ++ [summary_turn responses])%list
       end,
       Sent responses)
  | Throw e => (turns, Rejected e)
  end.

(** ** Notions the further properties are stated with *)

Definition is_string (v : JsValue) : bool :=
  match v with
  | Some (JStr _) => true
  | _ => false
  end.

(** A value on which [if (v)] succeeds and [v.toUpperCase()] then throws. *)
Definition truthy_non_string (v : JsValue) : bool :=
  ToBoolean v && negb (is_string v).

(** A [voucherId] that is a known code in some casing. *)
Definition known_code (v : JsValue) : bool :=
  match v with
  | Some (JStr s) =>
      String.eqb (toUpperCase s) "VOUCHER123" || String.eqb (toUpperCase s) "EXPIRED456"
  | _ => false
  end.

(** The arguments on which [fetchVoucherStatus] throws: none or [null]; a
    [voucherId] that is truthy and not a string; or, when [voucherId] is no
    known code, a [customerEmail] that is truthy and not a string. *)
Definition fetch_faults (args : JsValue) : bool :=
  match args with
  | None | Some JNull => true
  | Some o =>
      truthy_non_string (Get o "voucherId")
      || (negb (known_code (Get o "voucherId"))
          && truthy_non_string (Get o "customerEmail"))
  end.

Definition nullish (args : JsValue) : bool :=
  match args with
  | None | Some JNull => true
  | Some _ => false
  end.

(** A value that is a primitive or an array: not [null], not an object. *)
Definition not_an_object (v : Json) : bool :=
  match v with
  | JNull | JObj _ => false
  | _ => true
  end.

(** The handler of [fc] threw, for a body that runs at [now]. *)
Definition handler_threw (now : Z) (fc : FunctionCall) : Prop :=
  (fc_name fc = "get_voucher_status"
   /\ exists e, fetchVoucherStatus (fc_args fc) = Throw e)
  \/ (fc_name fc = "insert_daily_report"
      /\ exists e, submitDailyReport now (fc_args fc) = Throw e).

Definition named (tool : string) (fc : FunctionCall) : bool :=
  String.eqb (fc_name fc) tool.

Definition answer_named (tool : string) (fr : FunctionResponse) : bool :=
  String.eqb (fr_name fr) tool.

(** Three look-ups and a tool without a handler, all with wire arguments. *)
Definition lookups_batch : list FunctionCall :=
  [call "l1" "get_voucher_status" (Some (JObj [("voucherId", JStr "expired456")]));
   call "l2" "speak_to_representative" (Some (JObj [("reason", JStr "refund")]));
   call "l3" "get_voucher_status" None;
   call "l4" "get_voucher_status" (Some (JObj [("customerEmail", JStr "EXPIRED@example.com")]))].

(** * Properties *)

(** ** Case mapping *)

Lemma upper_unit_of_casing (c d : ascii) :
  d = upper_unit c \/ d = lower_unit c -> upper_unit d = upper_unit c.
Proof.
  destruct c as [[] [] [] [] [] [] [] []]; intros [-> | ->]; reflexivity.
Qed.

Lemma lower_unit_of_casing (c d : ascii) :
  d = upper_unit c \/ d = lower_unit c -> lower_unit d = lower_unit c.
Proof.
  destruct c as [[] [] [] [] [] [] [] []]; intros [-> | ->]; reflexivity.
Qed.

Lemma casing_of_upper_unit (c d : ascii) :
  upper_unit d = upper_unit c -> d = upper_unit c \/ d = lower_unit c.
Proof.
  destruct (is_lower d) eqn:Hd.
  - destruct d as [[] [] [] [] [] [] [] []]; try discriminate Hd;
      destruct c as [[] [] [] [] [] [] [] []]; intro H; try discriminate H;
      (left; reflexivity) || (right; reflexivity).
  - unfold upper_unit at 1. rewrite Hd. intros ->. now left.
Qed.

Lemma toUpperCase_casing (s t : string) :
  casing_of s t -> toUpperCase t = toUpperCase s.
Proof.
  induction 1 as [| c d s t Hcd _ IH]; simpl.
  - reflexivity.
  - now rewrite IH, (upper_unit_of_casing c d Hcd).
Qed.

Lemma toLowerCase_casing (s t : string) :
  casing_of s t -> toLowerCase t = toLowerCase s.
Proof.
  induction 1 as [| c d s t Hcd _ IH]; simpl.
  - reflexivity.
  - now rewrite IH, (lower_unit_of_casing c d Hcd).
Qed.

Lemma casing_of_toUpperCase (s t : string) :
  toUpperCase t = toUpperCase s -> casing_of s t.
Proof.
  revert t. induction s as [| c s IH]; intros [| d t] H; simpl in H; try discriminate H.
  - constructor.
  - injection H as Hc Hs. constructor.
    + now apply casing_of_upper_unit.
    + now apply IH.
Qed.

Lemma casing_of_iff_upper (s t : string) :
  casing_of s t <-> toUpperCase t = toUpperCase s.
Proof.
  split; [apply toUpperCase_casing | apply casing_of_toUpperCase].
Qed.

Lemma toUpperCase_toLowerCase (s : string) :
  toUpperCase (toLowerCase s) = toUpperCase s.
Proof.
  induction s as [| c s IH]; cbn.
  - reflexivity.
  - rewrite IH. f_equal. destruct c as [[] [] [] [] [] [] [] []]; reflexivity.
Qed.

Lemma casing_of_toLowerCase (s t : string) :
  toLowerCase t = toLowerCase s -> casing_of s t.
Proof.
  intro H. apply casing_of_toUpperCase.
  now rewrite <- (toUpperCase_toLowerCase t), H, toUpperCase_toLowerCase.
Qed.

Lemma casing_of_nonempty (c : ascii) (s t : string) :
  casing_of (String c s) t -> String.eqb t "" = false.
Proof.
  inversion 1; reflexivity.
Qed.

(** ** Property lists *)

Lemma lookup_delete_same (k : string) (props : list (string * Json)) :
  lookup k (delete k props) = undefined.
Proof.
  induction props as [| [k' v] r IH]; simpl.
  - reflexivity.
  - destruct (String.eqb k k') eqn:E; simpl.
    + exact IH.
    + now rewrite E.
Qed.

Lemma lookup_delete_other (k k' : string) (props : list (string * Json)) :
  String.eqb k k' = false -> lookup k (delete k' props) = lookup k props.
Proof.
  intro Hkk'. induction props as [| [k0 v] r IH]; simpl.
  - reflexivity.
  - destruct (String.eqb k' k0) eqn:E; simpl.
    + apply String.eqb_eq in E. subst k0. now rewrite Hkk'.
    + now rewrite IH.
Qed.

(** ** [fetchVoucherStatus] on an argument object *)

Lemma fetchVoucherStatus_without_id (props : list (string * Json)) :
  ToBoolean (lookup "voucherId" props) = false ->
  fetchVoucherStatus (Some (JObj props))
  = fetchVoucherStatus_by_email (lookup "customerEmail" props).
Proof.
  intro H. unfold fetchVoucherStatus. cbn [RequireObjectCoercible bind Get].
  now rewrite H.
Qed.

Lemma fetchVoucherStatus_with_id (props : list (string * Json)) (v : string) :
  lookup "voucherId" props = Some (JStr v) ->
  String.eqb v "" = false ->
  fetchVoucherStatus (Some (JObj props))
  = if String.eqb (toUpperCase v) "VOUCHER123" then Normal voucher_active
    else if String.eqb (toUpperCase v) "EXPIRED456" then Normal voucher_expired
    else fetchVoucherStatus_by_email (lookup "customerEmail" props).
Proof.
  intros Hid Hv. unfold fetchVoucherStatus. cbn [RequireObjectCoercible bind Get].
  rewrite Hid. cbn [ToBoolean call_toUpperCase bind]. rewrite Hv. cbn [negb].
  reflexivity.
Qed.

Lemma fetchVoucherStatus_by_email_casing (known e : string) (c : ascii) (s : string) :
  known = String c s ->
  casing_of known e ->
  fetchVoucherStatus_by_email (Some (JStr e))
  = if String.eqb (toLowerCase known) "active@example.com" then Normal loyalty_active
    else if String.eqb (toLowerCase known) "expired@example.com" then Normal loyalty_redeemed
    else Normal not_found.
Proof.
  intros -> H. unfold fetchVoucherStatus_by_email.
  cbn [ToBoolean call_toLowerCase bind].
  rewrite (casing_of_nonempty _ _ _ H). cbn [negb].
  now rewrite (toLowerCase_casing _ _ H).
Qed.

Lemma fetchVoucherStatus_by_email_unmatched (customerEmail : JsValue) :
  unmatched ["active@example.com"; "expired@example.com"] customerEmail ->
  fetchVoucherStatus_by_email customerEmail = Normal not_found.
Proof.
  unfold fetchVoucherStatus_by_email.
  destruct customerEmail as [[| | | e | |] |]; cbn [unmatched]; try contradiction;
    [| reflexivity].
  intro H. inversion H as [| ? ? Hactive H']; subst.
  inversion H' as [| ? ? Hexpired _]; subst.
  cbn [ToBoolean call_toLowerCase bind].
  destruct (negb (String.eqb e "")); [| reflexivity].
  destruct (String.eqb (toLowerCase e) "active@example.com") eqn:E1.
  { apply String.eqb_eq in E1. elim Hactive. now apply casing_of_toLowerCase. }
  destruct (String.eqb (toLowerCase e) "expired@example.com") eqn:E2.
  { apply String.eqb_eq in E2. elim Hexpired. now apply casing_of_toLowerCase. }
  reflexivity.
Qed.

(** C3. [get_voucher_status] matches its fixtures whatever the case of the
    letters: a [voucherId] that is any casing of [voucher123] gives the
    active 25% voucher; with no [voucherId], a [customerEmail] that is any
    casing of [active@example.com] gives the active loyalty voucher; an
    argument object in which neither identifier matches a fixture, such as
    the empty object, gives [not_found]. *)
Theorem get_voucher_status_ignores_case :
  (forall props v,
      lookup "voucherId" props = Some (JStr v) ->
      casing_of "voucher123" v ->
      fetchVoucherStatus (Some (JObj props))
      = Normal (JObj [("status", JStr "active"); ("discount", JStr "25%");
                      ("expires", JStr "2024-12-31")]))
  /\ (forall props e,
         lookup "voucherId" props = undefined ->
         lookup "customerEmail" props = Some (JStr e) ->
         casing_of "active@example.com" e ->
         fetchVoucherStatus (Some (JObj props)) = Normal loyalty_active)
  /\ (forall props,
         unmatched ["VOUCHER123"; "EXPIRED456"] (lookup "voucherId" props) ->
         unmatched ["active@example.com"; "expired@example.com"]
           (lookup "customerEmail" props) ->
         fetchVoucherStatus (Some (JObj props)) = Normal not_found)
  /\ fetchVoucherStatus (Some (JObj [])) = Normal not_found.
Proof.
  repeat split.
  - intros props v Hid Hv.
    rewrite (fetchVoucherStatus_with_id props v Hid (casing_of_nonempty _ _ _ Hv)).
    now rewrite (toUpperCase_casing _ _ Hv).
  - intros props e Hid Hmail He.
    rewrite fetchVoucherStatus_without_id by now rewrite Hid.
    rewrite Hmail.
    now rewrite (fetchVoucherStatus_by_email_casing _ e _ _ eq_refl He).
  - intros props Hid Hmail.
    destruct (lookup "voucherId" props) as [[| | | v | |] |] eqn:E;
      cbn [unmatched] in Hid; try contradiction.
    + inversion Hid as [| ? ? Hactive H']; subst.
      inversion H' as [| ? ? Hexpired _]; subst.
      destruct (String.eqb v "") eqn:Ev.
      * rewrite fetchVoucherStatus_without_id by (rewrite E; cbn; now rewrite Ev).
        now apply fetchVoucherStatus_by_email_unmatched.
      * rewrite (fetchVoucherStatus_with_id props v E Ev).
        destruct (String.eqb (toUpperCase v) "VOUCHER123") eqn:E1.
        { apply String.eqb_eq in E1. elim Hactive. now apply casing_of_toUpperCase. }
        destruct (String.eqb (toUpperCase v) "EXPIRED456") eqn:E2.
        { apply String.eqb_eq in E2. elim Hexpired. now apply casing_of_toUpperCase. }
        now apply fetchVoucherStatus_by_email_unmatched.
    + rewrite fetchVoucherStatus_without_id by now rewrite E.
      now apply fetchVoucherStatus_by_email_unmatched.
Qed.

Lemma casing_VoUcHeR123 : casing_of "voucher123" "VoUcHeR123".
Proof.
  repeat (constructor; [(left; reflexivity) || (right; reflexivity) |]). constructor.
Qed.

Lemma casing_ACTIVE_at_example : casing_of "active@example.com" "ACTIVE@example.com".
Proof.
  repeat (constructor; [(left; reflexivity) || (right; reflexivity) |]). constructor.
Qed.

Lemma get_voucher_status_ignores_case_witness :
  fetchVoucherStatus (Some (JObj [("voucherId", JStr "VoUcHeR123")])) = Normal voucher_active
  /\ fetchVoucherStatus (Some (JObj [("customerEmail", JStr "ACTIVE@example.com")]))
     = Normal loyalty_active
  /\ fetchVoucherStatus
       (Some (JObj [("voucherId", JStr "nope"); ("customerEmail", JStr "nobody@example.com")]))
     = Normal not_found.
Proof.
  destruct get_voucher_status_ignores_case as (Hid & Hmail & Hnone & _).
  split; [| split].
  - apply (Hid [("voucherId", JStr "VoUcHeR123")] "VoUcHeR123").
    + reflexivity.
    + exact casing_VoUcHeR123.
  - apply (Hmail [("customerEmail", JStr "ACTIVE@example.com")] "ACTIVE@example.com").
    + reflexivity.
    + reflexivity.
    + exact casing_ACTIVE_at_example.
  - apply (Hnone [("voucherId", JStr "nope"); ("customerEmail", JStr "nobody@example.com")]);
      repeat constructor; intro H; apply toUpperCase_casing in H; discriminate H.
Defined.

(** C2, as the specification states it, fails: this argument object has a
    [voucherId] that matches no known code in any casing, and still the
    answer is not [not_found] but the loyalty voucher found through
    [customerEmail]; the same [voucherId] alone gives [not_found], so the
    result is not determined by [voucherId] alone. *)
Lemma unknown_voucherId_falls_through_to_email :
  Get unknown_id_known_email "voucherId" = Some (JStr "UNKNOWN")
  /\ ~ casing_of "VOUCHER123" "UNKNOWN"
  /\ ~ casing_of "EXPIRED456" "UNKNOWN"
  /\ fetchVoucherStatus (Some unknown_id_known_email) = Normal loyalty_active
  /\ fetchVoucherStatus (Some unknown_id_known_email) <> Normal not_found
  /\ fetchVoucherStatus (Some (JObj [("voucherId", JStr "UNKNOWN")])) = Normal not_found.
Proof.
  repeat split; try reflexivity; try discriminate.
  - intro H. apply toUpperCase_casing in H. discriminate H.
  - intro H. apply toUpperCase_casing in H. discriminate H.
Qed.

(** C2, amended. A [voucherId] that matches a known code, in any casing,
    decides the result alone, whatever [customerEmail] holds. A non-empty
    [voucherId] that matches no known code is treated as if it were absent:
    the result is the one [customerEmail] gives, [not_found] included. *)
Theorem voucherId_precedes_email_when_known (props : list (string * Json)) (v : string) :
  lookup "voucherId" props = Some (JStr v) ->
  (casing_of "VOUCHER123" v ->
   fetchVoucherStatus (Some (JObj props)) = Normal voucher_active)
  /\ (casing_of "EXPIRED456" v ->
      fetchVoucherStatus (Some (JObj props)) = Normal voucher_expired)
  /\ (v <> "" -> ~ casing_of "VOUCHER123" v -> ~ casing_of "EXPIRED456" v ->
      fetchVoucherStatus (Some (JObj props))
      = fetchVoucherStatus (Some (JObj (delete "voucherId" props)))).
Proof.
  intro Hid. split; [| split].
  - intro Hv.
    rewrite (fetchVoucherStatus_with_id props v Hid (casing_of_nonempty _ _ _ Hv)).
    now rewrite (toUpperCase_casing _ _ Hv).
  - intro Hv.
    rewrite (fetchVoucherStatus_with_id props v Hid (casing_of_nonempty _ _ _ Hv)).
    now rewrite (toUpperCase_casing _ _ Hv).
  - intros Hne H1 H2.
    assert (Hv : String.eqb v "" = false) by now apply String.eqb_neq.
    rewrite (fetchVoucherStatus_with_id props v Hid Hv).
    destruct (String.eqb (toUpperCase v) "VOUCHER123") eqn:E1.
    { apply String.eqb_eq in E1. exfalso. apply H1. now apply casing_of_toUpperCase. }
    destruct (String.eqb (toUpperCase v) "EXPIRED456") eqn:E2.
    { apply String.eqb_eq in E2. exfalso. apply H2. now apply casing_of_toUpperCase. }
    rewrite fetchVoucherStatus_without_id by now rewrite lookup_delete_same.
    now rewrite lookup_delete_other.
Qed.

Lemma voucherId_precedes_email_when_known_witness :
  fetchVoucherStatus
    (Some (JObj [("voucherId", JStr "UNKNOWN"); ("customerEmail", JStr "expired@example.com")]))
  = fetchVoucherStatus (Some (JObj [("customerEmail", JStr "expired@example.com")])).
Proof.
  apply (voucherId_precedes_email_when_known
           [("voucherId", JStr "UNKNOWN"); ("customerEmail", JStr "expired@example.com")]
           "UNKNOWN" eq_refl).
  - discriminate.
  - intro H. apply toUpperCase_casing in H. discriminate H.
  - intro H. apply toUpperCase_casing in H. discriminate H.
Defined.

(** C10. An empty [voucherId] is treated like an absent one: the result is
    the one of the argument object without it. So an empty [voucherId] with
    the email [active@example.com] gives the loyalty voucher, and with an
    empty email gives [not_found]. *)
Theorem empty_voucherId_is_absent :
  (forall props,
      lookup "voucherId" props = Some (JStr "") ->
      fetchVoucherStatus (Some (JObj props))
      = fetchVoucherStatus (Some (JObj (delete "voucherId" props))))
  /\ fetchVoucherStatus
       (Some (JObj [("voucherId", JStr ""); ("customerEmail", JStr "active@example.com")]))
     = Normal loyalty_active
  /\ fetchVoucherStatus (Some (JObj [("voucherId", JStr ""); ("customerEmail", JStr "")]))
     = Normal not_found.
Proof.
  split; [| split; reflexivity].
  intros props Hid.
  rewrite fetchVoucherStatus_without_id by now rewrite Hid.
  rewrite fetchVoucherStatus_without_id by now rewrite lookup_delete_same.
  now rewrite lookup_delete_other.
Qed.

Lemma empty_voucherId_is_absent_witness :
  fetchVoucherStatus
    (Some (JObj [("customerEmail", JStr "expired@example.com"); ("voucherId", JStr "")]))
  = fetchVoucherStatus (Some (JObj [("customerEmail", JStr "expired@example.com")])).
Proof.
  apply (proj1 empty_voucherId_is_absent
           [("customerEmail", JStr "expired@example.com"); ("voucherId", JStr "")]).
  reflexivity.
Defined.

(** ** [submitDailyReport] *)

Lemma Number_toString_nonempty (n : Z) : Number_toString n <> "".
Proof.
  unfold Number_toString. destruct n as [| p | p]; simpl; try discriminate.
  unfold NilEmpty.string_of_uint.
  pose proof (Unsigned.to_uint_nonnil p) as Hp.
  destruct (Pos.to_uint p); try discriminate. now elim Hp.
Qed.

(** C4. [insert_daily_report] checks [issuedVouchers]: when it is not a
    number, or is a negative one, the result is an error status with a
    message; when it is a number that is not negative, the result is a
    success status with a non-empty [reportId] and the argument object
    itself as [submittedData]. *)
Theorem insert_daily_report_validates_count (now : Z) (props : list (string * Json)) :
  ((forall n, lookup "issuedVouchers" props = Some (JNum n) -> n < 0) ->
   exists message,
     submitDailyReport now (Some (JObj props))
     = Normal (JObj [("status", JStr "error"); ("message", JStr message)]))
  /\ (forall n,
         lookup "issuedVouchers" props = Some (JNum n) -> 0 <= n ->
         exists message reportId,
           reportId <> ""
           /\ submitDailyReport now (Some (JObj props))
              = Normal (JObj [("status", JStr "success");
                              ("message", JStr message);
                              ("reportId", JStr reportId);
                              ("submittedData", JObj props)])).
Proof.
  unfold submitDailyReport. cbn [RequireObjectCoercible bind Get]. split.
  - intro Hbad. eexists.
    destruct (lookup "issuedVouchers" props) as [[| | n | | |] |]; try reflexivity.
    cbn [not_a_number_or_negative].
    assert (n < 0) as Hn by now apply Hbad.
    apply Z.ltb_lt in Hn. rewrite Hn. reflexivity.
  - intros n Hn Hpos. rewrite Hn. cbn [not_a_number_or_negative].
    apply Z.ltb_ge in Hpos. rewrite Hpos.
    do 2 eexists. split; [| reflexivity].
    intro H. discriminate H.
Qed.

Lemma insert_daily_report_validates_count_witness :
  (exists message,
      submitDailyReport 1000 (Some (JObj [("issuedVouchers", JNum (-1))]))
      = Normal (JObj [("status", JStr "error"); ("message", JStr message)]))
  /\ (exists message reportId,
         reportId <> ""
         /\ submitDailyReport 1000 (Some (JObj [("issuedVouchers", JNum 5)]))
            = Normal (JObj [("status", JStr "success");
                            ("message", JStr message);
                            ("reportId", JStr reportId);
                            ("submittedData", JObj [("issuedVouchers", JNum 5)])])).
Proof.
  split.
  - apply (proj1 (insert_daily_report_validates_count 1000 [("issuedVouchers", JNum (-1))])).
    intros n H. injection H as <-. lia.
  - apply (proj2 (insert_daily_report_validates_count 1000 [("issuedVouchers", JNum 5)]) 5).
    + reflexivity.
    + lia.
Defined.

(** ** The dispatcher *)

Lemma awaited_delay_cases (fc : FunctionCall) :
  (awaited_delay fc = None /\ unawaited fc = true
   /\ awaits submitDailyReport_delay fc = false /\ awaits fetchVoucherStatus_delay fc = false)
  \/ (awaited_delay fc = Some submitDailyReport_delay /\ unawaited fc = false
      /\ awaits submitDailyReport_delay fc = true /\ awaits fetchVoucherStatus_delay fc = false)
  \/ (awaited_delay fc = Some fetchVoucherStatus_delay /\ unawaited fc = false
      /\ awaits submitDailyReport_delay fc = false /\ awaits fetchVoucherStatus_delay fc = true).
Proof.
  unfold unawaited, awaits, awaited_delay.
  destruct (String.eqb (fc_name fc) "get_voucher_status").
  - right. right. repeat split.
  - destruct (String.eqb (fc_name fc) "insert_daily_report").
    + right. left. repeat split.
    + left. repeat split.
Qed.

(** Every branch on [fc.name] assigns [functionResult]: what a handler
    throws is replaced in the [catch] block. *)
Lemma functionResult_assigned (now : Z) (fc : FunctionCall) :
  exists result, functionResult now fc = Normal result.
Proof.
  unfold functionResult.
  destruct (String.eqb (fc_name fc) "get_voucher_status").
  - destruct (fetchVoucherStatus (fc_args fc)); simpl; eauto.
  - destruct (String.eqb (fc_name fc) "insert_daily_report").
    + destruct (submitDailyReport now (fc_args fc)); simpl; eauto.
    + eauto.
Qed.

Lemma settle_pushes (t0 : Z) (fc : FunctionCall) (responses : list FunctionResponse) :
  exists fr,
    settle (resumes_at t0 fc) fc responses = Normal (responses ++ [fr])%list
    /\ answers t0 fc fr.
Proof.
  unfold settle.
  destruct (functionResult_assigned (resumes_at t0 fc) fc) as [result Hresult].
  rewrite Hresult. cbn [bind]. eexists. split; [reflexivity |].
  unfold answers. cbn. eauto.
Qed.

Lemma insert_timer_behind (t : Timer) (queue : list Timer) :
  Forall (fun u => due u <= due t) queue ->
  insert_timer t queue = (queue ++ [t])%list.
Proof.
  induction 1 as [| u r Hu _ IH]; simpl.
  - reflexivity.
  - apply Z.leb_le in Hu. now rewrite Hu, IH.
Qed.

Lemma insert_timer_between (t : Timer) (early late : list Timer) :
  Forall (fun u => due u <= due t) early ->
  Forall (fun u => due t < due u) late ->
  insert_timer t (early ++ late) = (early ++ t :: late)%list.
Proof.
  intros Hearly Hlate. induction Hearly as [| u r Hu _ IH]; simpl.
  - destruct Hlate as [| u r Hu _]; simpl.
    + reflexivity.
    + apply Z.leb_gt in Hu. now rewrite Hu.
  - apply Z.leb_le in Hu. now rewrite Hu, IH.
Qed.

Lemma due_timer_of (t0 delay : Z) (calls : list FunctionCall) :
  Forall (fun fc => awaited_delay fc = Some delay) calls ->
  Forall (fun u => due u = t0 + delay) (map (timer_of t0) calls).
Proof.
  induction 1 as [| fc r Hfc _ IH]; simpl; constructor.
  - unfold timer_of, resumes_at. cbn. now rewrite Hfc.
  - exact IH.
Qed.

(** After the synchronous pass over the batch, the responses of the
    fallback branch are pushed, in request order, and the timer queue holds
    the reports (due first) and then the voucher look-ups, each in request
    order. *)
Lemma start_callbacks_queue (t0 : Z) (calls : list FunctionCall) :
  forall (reports lookups : list FunctionCall) (responses : list FunctionResponse),
    Forall (fun fc => awaited_delay fc = Some submitDailyReport_delay) reports ->
    Forall (fun fc => awaited_delay fc = Some fetchVoucherStatus_delay) lookups ->
    exists pushed,
      start_callbacks calls
        {| clock := t0;
           timers := map (timer_of t0) (reports ++ lookups);
           functionResponses := responses |}
      = Normal
          {| clock := t0;
             timers :=
               map (timer_of t0)
                 ((reports ++ filter (awaits submitDailyReport_delay) calls)
                    ++ (lookups ++ filter (awaits fetchVoucherStatus_delay) calls));
             functionResponses := (responses ++ pushed)%list |}
      /\ Forall2 (answers t0) (filter unawaited calls) pushed.
Proof.
  induction calls as [| fc rest IH]; intros reports lookups responses Hreports Hlookups.
  - exists []. cbn. rewrite !List.app_nil_r. split; [reflexivity | constructor].
  - cbn [start_callbacks filter]. unfold start_callback.
    destruct (awaited_delay_cases fc)
      as [(Hd & Hu & H6 & H8) | [(Hd & Hu & H6 & H8) | (Hd & Hu & H6 & H8)]];
      rewrite Hd, Hu, H6, H8; cbn [bind clock timers functionResponses].
    + destruct (settle_pushes t0 fc responses) as (fr & Hsettle & Hfr).
      unfold resumes_at in Hsettle. rewrite Hd in Hsettle.
      rewrite Hsettle. cbn [bind].
      destruct (IH reports lookups (responses ++ [fr])%list Hreports Hlookups)
        as (pushed & Hrun & Hpushed).
      exists (fr :: pushed). rewrite Hrun. split.
      * now rewrite <- (List.app_assoc responses [fr] pushed).
      * now constructor.
    + unfold setTimeout. cbn [clock timers functionResponses].
      assert (Hq : insert_timer {| due := t0 + submitDailyReport_delay; task := fc |}
                     (map (timer_of t0) (reports ++ lookups))
                   = map (timer_of t0) ((reports ++ [fc]) ++ lookups)).
      { rewrite !map_app. cbn [map]. rewrite <- List.app_assoc. cbn [app].
        replace (timer_of t0 fc) with {| due := t0 + submitDailyReport_delay; task := fc |}
          by (unfold timer_of, resumes_at; now rewrite Hd).
        apply insert_timer_between.
        - eapply Forall_impl; [| exact (due_timer_of t0 _ _ Hreports)].
          cbn. intros u ->. lia.
        - eapply Forall_impl; [| exact (due_timer_of t0 _ _ Hlookups)].
          cbn. intros u ->. unfold submitDailyReport_delay, fetchVoucherStatus_delay. lia. }
      rewrite Hq.
      destruct (IH (reports ++ [fc])%list lookups responses) as (pushed & Hrun & Hpushed).
      { apply Forall_app. split; [exact Hreports | now constructor]. }
      { exact Hlookups. }
      exists pushed. rewrite Hrun. split; [| exact Hpushed].
      now rewrite <- (List.app_assoc reports [fc]).
    + unfold setTimeout. cbn [clock timers functionResponses].
      assert (Hq : insert_timer {| due := t0 + fetchVoucherStatus_delay; task := fc |}
                     (map (timer_of t0) (reports ++ lookups))
                   = map (timer_of t0) (reports ++ (lookups ++ [fc]))).
      { rewrite List.app_assoc, (map_app _ (reports ++ lookups)). cbn [map].
        replace (timer_of t0 fc) with {| due := t0 + fetchVoucherStatus_delay; task := fc |}
          by (unfold timer_of, resumes_at; now rewrite Hd).
        apply insert_timer_behind. rewrite map_app. apply Forall_app. split.
        - eapply Forall_impl; [| exact (due_timer_of t0 _ _ Hreports)].
          cbn. intros u ->. unfold submitDailyReport_delay, fetchVoucherStatus_delay. lia.
        - eapply Forall_impl; [| exact (due_timer_of t0 _ _ Hlookups)].
          cbn. intros u ->. lia. }
      rewrite Hq.
      destruct (IH reports (lookups ++ [fc])%list responses) as (pushed & Hrun & Hpushed).
      { exact Hreports. }
      { apply Forall_app. split; [exact Hlookups | now constructor]. }
      exists pushed. rewrite Hrun. split; [| exact Hpushed].
      now rewrite <- (List.app_assoc lookups [fc]).
Qed.

(** Each timer of the queue resumes its callback, which pushes the
    response of its request. *)
Lemma run_timers_pushes (t0 : Z) (calls : list FunctionCall) :
  forall responses,
  exists pushed,
    run_timers (map (timer_of t0) calls) responses = Normal (responses ++ pushed)%list
    /\ Forall2 (answers t0) calls pushed.
Proof.
  induction calls as [| fc rest IH]; intro responses; cbn [map run_timers].
  - exists []. rewrite List.app_nil_r. split; [reflexivity | constructor].
  - cbn [timer_of due task].
    destruct (settle_pushes t0 fc responses) as (fr & Hsettle & Hfr).
    rewrite Hsettle. cbn [bind].
    destruct (IH (responses ++ [fr])%list) as (pushed & Hrun & Hpushed).
    exists (fr :: pushed). rewrite Hrun. split.
    + now rewrite <- (List.app_assoc responses [fr] pushed).
    + now constructor.
Qed.

(** The listener always sends, and what it sends is the response of every
    request, in completion order. *)
Lemma onToolCall_sends (t0 : Z) (batch : list FunctionCall) :
  exists responses,
    onToolCall t0 batch = Sent responses
    /\ Forall2 (answers t0) (completion_order batch) responses.
Proof.
  unfold onToolCall.
  destruct (start_callbacks_queue t0 batch [] [] [] (Forall_nil _) (Forall_nil _))
    as (pushed & Hstart & Hpushed).
  cbn [app map] in Hstart. rewrite Hstart. cbn [bind timers functionResponses app].
  destruct (run_timers_pushes t0
              (filter (awaits submitDailyReport_delay) batch
                 ++ filter (awaits fetchVoucherStatus_delay) batch) pushed)
    as (later & Hrun & Hlater).
  rewrite Hrun. exists (pushed ++ later)%list. split; [reflexivity |].
  unfold completion_order. now apply Forall2_app.
Qed.

Lemma completion_order_permutation (batch : list FunctionCall) :
  Permutation batch (completion_order batch).
Proof.
  unfold completion_order. induction batch as [| fc rest IH]; cbn [filter].
  - constructor.
  - destruct (awaited_delay_cases fc)
      as [(_ & Hu & H6 & H8) | [(_ & Hu & H6 & H8) | (_ & Hu & H6 & H8)]];
      rewrite Hu, H6, H8.
    + cbn [app]. now constructor.
    + now apply Permutation_cons_app.
    + rewrite List.app_assoc. apply Permutation_cons_app. now rewrite <- List.app_assoc.
Qed.

Lemma Forall2_answer_of {A B : Type} (R : A -> B -> Prop) (l : list A) (l' : list B) (x : A) :
  Forall2 R l l' -> In x l -> exists y, In y l' /\ R x y.
Proof.
  induction 1 as [| a b l l' Hab _ IH]; intros Hx; [destruct Hx |].
  destruct Hx as [<- | Hx].
  - exists b. split; [now left | exact Hab].
  - destruct (IH Hx) as (y & Hy & Hxy). exists y. split; [now right | exact Hxy].
Qed.

(** Every request of the batch has its entry among the responses sent. *)
Lemma onToolCall_answers_each (t0 : Z) (batch : list FunctionCall) (fc : FunctionCall) :
  In fc batch ->
  exists responses fr,
    onToolCall t0 batch = Sent responses /\ In fr responses /\ answers t0 fc fr.
Proof.
  intro Hfc. destruct (onToolCall_sends t0 batch) as (responses & Hsent & Hall).
  assert (Hin : In fc (completion_order batch)).
  { eapply Permutation_in; [apply completion_order_permutation | exact Hfc]. }
  destruct (Forall2_answer_of _ _ _ _ Hall Hin) as (fr & Hfr & Hanswer).
  exists responses, fr. auto.
Qed.

(** C1. Whatever the batch, the dispatcher sends as many responses as there
    are requests, and the responses are, one for one, the entries of the
    requests taken in some order: each echoes the id (and name) of its
    request and carries the serialised value assigned for it, the [catch]
    payload when the handler failed. *)
Theorem one_response_per_request (t0 : Z) (batch : list FunctionCall) :
  exists responses order,
    onToolCall t0 batch = Sent responses
    /\ List.length responses = List.length batch
    /\ Permutation batch order
    /\ Forall2 (answers t0) order responses
    /\ Permutation (map fr_id responses) (map fc_id batch).
Proof.
  destruct (onToolCall_sends t0 batch) as (responses & Hsent & Hall).
  pose proof (completion_order_permutation batch) as Hperm.
  exists responses, (completion_order batch). repeat split; auto.
  - rewrite <- (Forall2_length Hall). symmetry. now apply Permutation_length.
  - transitivity (map fc_id (completion_order batch)).
    + clear Hsent Hperm. induction Hall as [| fc fr l l' (Hid & _) _ IH]; cbn [map].
      * constructor.
      * rewrite Hid. now constructor.
    + symmetry. now apply Permutation_map.
Qed.

(** C5. A handler that throws does not break the batch: the dispatcher
    still sends, the entry of the failing call carries the [error] message
    of its [catch] block, and every request of the batch, the others
    included, still has its entry. *)
Theorem handler_fault_becomes_error_payload
    (t0 : Z) (batch : list FunctionCall) (fc : FunctionCall) (e : JsError) :
  In fc batch ->
  (fc_name fc = "get_voucher_status" /\ fetchVoucherStatus (fc_args fc) = Throw e)
  \/ (fc_name fc = "insert_daily_report"
      /\ submitDailyReport (resumes_at t0 fc) (fc_args fc) = Throw e) ->
  exists responses order,
    onToolCall t0 batch = Sent responses
    /\ Permutation batch order
    /\ Forall2 (answers t0) order responses
    /\ exists fr message,
         In fr responses
         /\ fr_id fr = fc_id fc
         /\ fr_name fr = fc_name fc
         /\ fr_result fr = JSON_stringify (JObj [("error", JStr message)]).
Proof.
  intros Hfc Hfault.
  destruct (onToolCall_sends t0 batch) as (responses & Hsent & Hall).
  pose proof (completion_order_permutation batch) as Hperm.
  exists responses, (completion_order batch). repeat split; auto.
  assert (Hin : In fc (completion_order batch)) by (eapply Permutation_in; eauto).
  destruct (Forall2_answer_of _ _ _ _ Hall Hin) as (fr & Hfr & Hid & Hname & result & Hres & Htext).
  exists fr. unfold functionResult in Hres.
  destruct Hfault as [(Hn & Hthrow) | (Hn & Hthrow)]; rewrite Hn in Hres; cbn in Hres;
    rewrite Hthrow in Hres; cbn in Hres; injection Hres as <-;
    eexists; repeat split; eauto.
Qed.

Lemma handler_fault_becomes_error_payload_witness :
  exists responses order,
    onToolCall 0 faulty_batch = Sent responses
    /\ Permutation faulty_batch order
    /\ Forall2 (answers 0) order responses
    /\ exists fr message,
         In fr responses
         /\ fr_id fr = "y"
         /\ fr_name fr = "insert_daily_report"
         /\ fr_result fr = JSON_stringify (JObj [("error", JStr message)]).
Proof.
  apply (handler_fault_becomes_error_payload 0 faulty_batch
           (call "y" "insert_daily_report" None)
           (TypeError "Cannot read properties of undefined")).
  - right. left. reflexivity.
  - right. split; reflexivity.
Defined.

(** C6. A request whose name is neither [get_voucher_status] nor
    [insert_daily_report] is answered with the acknowledgement
    [{result:'ok'}]: its entry is sent with the batch and parses back to
    exactly that object. The two tools of [AVAILABLE_TOOLS], [claim_refund]
    and [speak_to_representative], are such names. *)
Theorem other_tools_are_acknowledged :
  (forall t0 batch fc,
      In fc batch ->
      fc_name fc <> "get_voucher_status" ->
      fc_name fc <> "insert_daily_report" ->
      exists responses fr,
        onToolCall t0 batch = Sent responses
        /\ In fr responses
        /\ fr_id fr = fc_id fc
        /\ fr_name fr = fc_name fc
        /\ JSON_parse (fr_result fr) = Some (JObj [("result", JStr "ok")]))
  /\ (forall tool now id args,
         In tool AVAILABLE_TOOLS ->
         functionResult now (call id (name tool) args) = Normal (JObj [("result", JStr "ok")])).
Proof.
  split.
  - intros t0 batch fc Hfc Hn1 Hn2.
    destruct (onToolCall_answers_each t0 batch fc Hfc)
      as (responses & fr & Hsent & Hfr & Hid & Hname & result & Hres & Htext).
    exists responses, fr. repeat split; auto.
    unfold functionResult in Hres.
    apply String.eqb_neq in Hn1, Hn2. rewrite Hn1, Hn2 in Hres.
    injection Hres as <-. rewrite Htext. reflexivity.
  - intros tool now id args [<- | [<- | []]]; reflexivity.
Qed.

Lemma other_tools_are_acknowledged_witness :
  exists responses fr,
    onToolCall 0 slow_then_fast = Sent responses
    /\ In fr responses
    /\ fr_id fr = "b"
    /\ fr_name fr = "claim_refund"
    /\ JSON_parse (fr_result fr) = Some (JObj [("result", JStr "ok")]).
Proof.
  apply (proj1 other_tools_are_acknowledged 0 slow_then_fast
           (call "b" "claim_refund"
              (Some (JObj [("voucherId", JStr "voucher123");
                           ("reason", JStr "changed my mind")])))).
  - right. left. reflexivity.
  - discriminate.
  - discriminate.
Defined.

(** ** Completion order and request order *)

Lemma completion_rank_cases (fc : FunctionCall) :
  (completion_rank fc = 0%nat /\ unawaited fc = true
   /\ awaits submitDailyReport_delay fc = false /\ awaits fetchVoucherStatus_delay fc = false)
  \/ (completion_rank fc = 1%nat /\ unawaited fc = false
      /\ awaits submitDailyReport_delay fc = true /\ awaits fetchVoucherStatus_delay fc = false)
  \/ (completion_rank fc = 2%nat /\ unawaited fc = false
      /\ awaits submitDailyReport_delay fc = false /\ awaits fetchVoucherStatus_delay fc = true).
Proof.
  unfold completion_rank.
  destruct (awaited_delay_cases fc) as [(Hd & H) | [(Hd & H) | (Hd & H)]]; rewrite Hd.
  - left. now split.
  - right. left. now split.
  - right. right. now split.
Qed.

Lemma filter_none {A : Type} (p : A -> bool) (l : list A) :
  Forall (fun x => p x = false) l -> filter p l = [].
Proof.
  induction 1 as [| x r Hx _ IH]; cbn [filter].
  - reflexivity.
  - now rewrite Hx.
Qed.

Lemma ranks_ascend_app (early late : list FunctionCall) :
  ranks_ascend early = true ->
  ranks_ascend late = true ->
  (forall a b, In a early -> In b late -> (completion_rank a <= completion_rank b)%nat) ->
  ranks_ascend (early ++ late) = true.
Proof.
  intros Hearly Hlate Hcross. induction early as [| fc rest IH]; cbn [app ranks_ascend].
  - exact Hlate.
  - cbn [ranks_ascend] in Hearly. apply andb_true_iff in Hearly as [Hfc Hrest].
    apply andb_true_iff. split.
    + rewrite forallb_app. apply andb_true_iff. split; [exact Hfc |].
      apply forallb_forall. intros b Hb. apply Nat.leb_le.
      apply Hcross; [now left | exact Hb].
    + apply IH; [exact Hrest |]. intros a b Ha Hb. apply Hcross; [now right | exact Hb].
Qed.

Lemma ranks_ascend_same (rank : nat) (calls : list FunctionCall) :
  Forall (fun fc => completion_rank fc = rank) calls -> ranks_ascend calls = true.
Proof.
  induction 1 as [| fc rest Hfc Hrest IH]; cbn [ranks_ascend].
  - reflexivity.
  - rewrite IH, andb_true_r. apply forallb_forall. intros fc' Hfc'.
    rewrite Forall_forall in Hrest. rewrite Hfc, (Hrest fc' Hfc'). apply Nat.leb_refl.
Qed.

Lemma filter_rank (p : FunctionCall -> bool) (rank : nat) (batch : list FunctionCall) :
  (forall fc, p fc = true -> completion_rank fc = rank) ->
  Forall (fun fc => completion_rank fc = rank) (filter p batch).
Proof.
  intro Hp. apply Forall_forall. intros fc Hfc. apply filter_In in Hfc as [_ Hfc]. auto.
Qed.

Lemma rank_of_unawaited (fc : FunctionCall) :
  unawaited fc = true -> completion_rank fc = 0%nat.
Proof.
  destruct (completion_rank_cases fc) as [(Hr & Hu & _) | [(Hr & Hu & _) | (Hr & Hu & _)]];
    rewrite Hu; now try discriminate.
Qed.

Lemma rank_of_report (fc : FunctionCall) :
  awaits submitDailyReport_delay fc = true -> completion_rank fc = 1%nat.
Proof.
  destruct (completion_rank_cases fc)
    as [(Hr & _ & H6 & _) | [(Hr & _ & H6 & _) | (Hr & _ & H6 & _)]];
    rewrite H6; now try discriminate.
Qed.

Lemma rank_of_lookup (fc : FunctionCall) :
  awaits fetchVoucherStatus_delay fc = true -> completion_rank fc = 2%nat.
Proof.
  destruct (completion_rank_cases fc)
    as [(Hr & _ & _ & H8) | [(Hr & _ & _ & H8) | (Hr & _ & _ & H8)]];
    rewrite H8; now try discriminate.
Qed.

Lemma completion_order_ascends (batch : list FunctionCall) :
  ranks_ascend (completion_order batch) = true.
Proof.
  unfold completion_order.
  pose proof (filter_rank unawaited 0 batch rank_of_unawaited) as H0.
  pose proof (filter_rank _ 1 batch rank_of_report) as H1.
  pose proof (filter_rank _ 2 batch rank_of_lookup) as H2.
  rewrite Forall_forall in H0, H1, H2.
  apply ranks_ascend_app.
  - apply (ranks_ascend_same 0). now apply Forall_forall.
  - apply ranks_ascend_app.
    + apply (ranks_ascend_same 1). now apply Forall_forall.
    + apply (ranks_ascend_same 2). now apply Forall_forall.
    + intros a b Ha Hb. rewrite (H1 a Ha), (H2 b Hb). lia.
  - intros a b Ha Hb. rewrite (H0 a Ha). lia.
Qed.

Lemma completion_order_of_ascending (batch : list FunctionCall) :
  ranks_ascend batch = true -> completion_order batch = batch.
Proof.
  unfold completion_order. induction batch as [| fc rest IH]; cbn [ranks_ascend filter].
  - reflexivity.
  - intro H. apply andb_true_iff in H as [Hfc Hrest].
    rewrite forallb_forall in Hfc.
    destruct (completion_rank_cases fc)
      as [(Hr & Hu & H6 & H8) | [(Hr & Hu & H6 & H8) | (Hr & Hu & H6 & H8)]];
      rewrite Hu, H6, H8.
    + cbn [app]. now rewrite IH.
    + specialize (IH Hrest).
      assert (Hnone : filter unawaited rest = []).
      { apply filter_none, Forall_forall. intros fc' Hfc'.
        apply Hfc in Hfc'. apply Nat.leb_le in Hfc'.
        destruct (completion_rank_cases fc') as [(Hr' & _) | [(_ & -> & _) | (_ & -> & _)]];
          [lia | reflexivity | reflexivity]. }
      rewrite Hnone in IH |- *. cbn [app] in IH |- *. now rewrite IH.
    + specialize (IH Hrest).
      assert (Hnone : filter unawaited rest = []).
      { apply filter_none, Forall_forall. intros fc' Hfc'.
        apply Hfc in Hfc'. apply Nat.leb_le in Hfc'.
        destruct (completion_rank_cases fc') as [(Hr' & _) | [(_ & -> & _) | (_ & -> & _)]];
          [lia | reflexivity | reflexivity]. }
      assert (Hnone' : filter (awaits submitDailyReport_delay) rest = []).
      { apply filter_none, Forall_forall. intros fc' Hfc'.
        apply Hfc in Hfc'. apply Nat.leb_le in Hfc'.
        destruct (completion_rank_cases fc')
          as [(Hr' & _) | [(Hr' & _) | (_ & _ & -> & _)]]; [lia | lia | reflexivity]. }
      rewrite Hnone, Hnone' in IH |- *. cbn [app] in IH |- *. now rewrite IH.
Qed.

(** C8, as the specification states it, fails: the entry of a fallback
    request is pushed before the entry of a look-up that precedes it in the
    batch, so the responses sent are not in request order. *)
Lemma fallback_entry_overtakes_lookup :
  onToolCall 0 slow_then_fast
  = Sent [response "b" "claim_refund" default_ok;
          response "a" "get_voucher_status" voucher_active]
  /\ map fc_id slow_then_fast = ["a"; "b"]
  /\ ~ Forall2 (answers 0) slow_then_fast
         [response "b" "claim_refund" default_ok;
          response "a" "get_voucher_status" voucher_active].
Proof.
  split; [reflexivity | split; [reflexivity |]].
  intro H. inversion H as [| fc fr l l' (Hid & _) _]; subst. discriminate Hid.
Qed.

(** C8, amended. The responses sent are the entries of the requests in the
    order their callbacks finish: first the requests answered without
    awaiting (the fallback branch), then the [insert_daily_report] requests
    (600 ms), then the [get_voucher_status] requests (800 ms), each group in
    request order. That order is the request order exactly when no request
    comes after one of a later group. *)
Theorem responses_follow_completion_order (t0 : Z) (batch : list FunctionCall) :
  exists responses,
    onToolCall t0 batch = Sent responses
    /\ Forall2 (answers t0) (completion_order batch) responses
    /\ (completion_order batch = batch <-> ranks_ascend batch = true).
Proof.
  destruct (onToolCall_sends t0 batch) as (responses & Hsent & Hall).
  exists responses. repeat split; auto.
  - intro H. rewrite <- H. apply completion_order_ascends.
  - apply completion_order_of_ascending.
Qed.

(** ** Report identifiers *)

Lemma Number_toString_injective (a b : Z) :
  Number_toString a = Number_toString b -> a = b.
Proof.
  unfold Number_toString. intro H.
  apply DecimalZ.to_int_inj.
  assert (Some (Z.to_int a) = Some (Z.to_int b)) as Hsome
      by now rewrite <- !NilEmpty.isi, H.
  now injection Hsome.
Qed.

Lemma submitDailyReport_success (now : Z) (args : JsValue) (v : Json) :
  submitDailyReport now args = Normal v ->
  Get v "status" = Some (JStr "success") ->
  exists o, v = report_accepted ("report_" ++ Number_toString now) o.
Proof.
  unfold submitDailyReport. destruct (RequireObjectCoercible args) as [o | e]; cbn [bind].
  - destruct (not_a_number_or_negative (Get o "issuedVouchers")).
    + intros [= <-] H. discriminate H.
    + intros [= <-] _. now exists o.
  - discriminate.
Qed.

(** C9, as the specification states it, fails: the two reports of this
    batch are both accepted, both resume when the clock reads 1600, and get
    the same [reportId]. *)
Lemma reports_of_one_batch_share_reportId :
  onToolCall 1000 two_reports
  = Sent [response "r1" "insert_daily_report"
            (report_accepted "report_1600" (JObj [("issuedVouchers", JNum 1)]));
          response "r2" "insert_daily_report"
            (report_accepted "report_1600" (JObj [("issuedVouchers", JNum 2)]))]
  /\ submitDailyReport 1600 (Some (JObj [("issuedVouchers", JNum 1)]))
     = Normal (report_accepted "report_1600" (JObj [("issuedVouchers", JNum 1)]))
  /\ submitDailyReport 1600 (Some (JObj [("issuedVouchers", JNum 2)]))
     = Normal (report_accepted "report_1600" (JObj [("issuedVouchers", JNum 2)])).
Proof.
  repeat split; reflexivity.
Qed.

(** C9, amended. The [reportId] of an accepted report is [report_]
    followed by the millisecond clock reading of the call; two accepted
    reports have the same [reportId] exactly when they read the same clock
    value, so only calls made at different milliseconds get different
    identifiers. *)
Theorem reportId_is_the_clock_reading
    (now1 now2 : Z) (args1 args2 : JsValue) (v1 v2 : Json) :
  submitDailyReport now1 args1 = Normal v1 ->
  Get v1 "status" = Some (JStr "success") ->
  submitDailyReport now2 args2 = Normal v2 ->
  Get v2 "status" = Some (JStr "success") ->
  Get v1 "reportId" = Some (JStr ("report_" ++ Number_toString now1))
  /\ (Get v1 "reportId" = Get v2 "reportId" <-> now1 = now2).
Proof.
  intros H1 S1 H2 S2.
  destruct (submitDailyReport_success _ _ _ H1 S1) as (o1 & ->).
  destruct (submitDailyReport_success _ _ _ H2 S2) as (o2 & ->).
  split; [reflexivity |]. split.
  - intro H. cbn in H. injection H as H.
    now apply Number_toString_injective.
  - now intros ->.
Qed.

Lemma reportId_is_the_clock_reading_witness :
  Get (report_accepted "report_1600" (JObj [("issuedVouchers", JNum 1)])) "reportId"
  = Some (JStr ("report_" ++ Number_toString 1600))
  /\ (Get (report_accepted "report_1600" (JObj [("issuedVouchers", JNum 1)])) "reportId"
      = Get (report_accepted "report_1601" (JObj [("issuedVouchers", JNum 1)])) "reportId"
      <-> 1600 = 1601).
Proof.
  apply (reportId_is_the_clock_reading 1600 1601
           (Some (JObj [("issuedVouchers", JNum 1)]))
           (Some (JObj [("issuedVouchers", JNum 1)])));
    reflexivity.
Defined.

(** ** Strings *)

Lemma string_app_assoc (a b c : string) : (a ++ b) ++ c = a ++ (b ++ c).
Proof.
  induction a as [| x a IH]; cbn.
  - reflexivity.
  - now rewrite IH.
Qed.

Lemma string_length_app (a b : string) :
  String.length (a ++ b) = (String.length a + String.length b)%nat.
Proof.
  induction a as [| x a IH]; cbn.
  - reflexivity.
  - now rewrite IH.
Qed.

Lemma string_app_empty (a : string) : a ++ "" = a.
Proof.
  induction a as [| x a IH]; cbn.
  - reflexivity.
  - now rewrite IH.
Qed.

(** ** String literals *)

Lemma parse_escaped_unit (c : ascii) (t : string) :
  parse_string_body (escape_unit c ++ t) = cons_unit c (parse_string_body t).
Proof.
  destruct c as [[] [] [] [] [] [] [] []]; reflexivity.
Qed.

Lemma parse_escaped_units (s rest : string) :
  parse_string_body (escape_units s ++ String dquote rest) = Some (s, rest).
Proof.
  induction s as [| c s IH]; cbn [escape_units].
  - reflexivity.
  - now rewrite string_app_assoc, parse_escaped_unit, IH.
Qed.

Lemma parse_quoted (s rest : string) :
  parse_string (QuoteJSONString s ++ rest) = Some (s, rest).
Proof.
  unfold QuoteJSONString.
  change (parse_string_body ((escape_units s ++ String dquote "") ++ rest) = Some (s, rest)).
  rewrite string_app_assoc. apply parse_escaped_units.
Qed.

(** ** Numbers *)

Lemma closes_stops_digits (rest : string) :
  closes rest = true ->
  span_digits rest = (EmptyString, rest) /\ starts_fraction_or_exponent rest = false.
Proof.
  destruct rest as [| c r]; cbn [closes span_digits starts_fraction_or_exponent].
  - now split.
  - intro H. apply orb_true_iff in H as [H | H]; [apply orb_true_iff in H as [H | H] |];
      apply Ascii.eqb_eq in H; subst c; now split.
Qed.

Lemma span_digits_uint (d : Decimal.uint) (rest : string) :
  closes rest = true ->
  span_digits (NilEmpty.string_of_uint d ++ rest) = (NilEmpty.string_of_uint d, rest).
Proof.
  intro Hrest. induction d; cbn [NilEmpty.string_of_uint append span_digits];
    try (replace (is_digit _) with true by reflexivity; now rewrite IHd).
  now apply closes_stops_digits.
Qed.

Lemma to_uint_leading_digit (p : positive) :
  match Pos.to_uint p with
  | Decimal.Nil | Decimal.D0 _ => False
  | _ => True
  end.
Proof.
  assert (Hnorm : Decimal.unorm (Pos.to_uint p) = Pos.to_uint p).
  { rewrite <- Unsigned.to_of, Unsigned.of_to. reflexivity. }
  pose proof (Unsigned.to_uint_nonzero p) as Hzero.
  destruct (Pos.to_uint p) as [| d' | | | | | | | | |] eqn:E; try exact I.
  - discriminate Hnorm.
  - rewrite unorm_D0 in Hnorm. unfold Decimal.unorm in Hnorm.
    destruct (Decimal.nzhead d') eqn:En; try discriminate Hnorm.
    + injection Hnorm as <-. now elim Hzero.
    + exact (nzhead_nonzero _ _ En).
Qed.

Lemma parse_digits_uint (negative : bool) (d : Decimal.uint) (rest : string) :
  closes rest = true ->
  match d with
  | Decimal.Nil => False
  | Decimal.D0 d' => d' = Decimal.Nil
  | _ => True
  end ->
  parse_digits negative (NilEmpty.string_of_uint d ++ rest)
  = Some (Z.of_int (if negative then Decimal.Neg d else Decimal.Pos d), rest).
Proof.
  intros Hrest Hd. unfold parse_digits. rewrite (span_digits_uint d rest Hrest).
  destruct (closes_stops_digits rest Hrest) as [_ Hstop].
  pose proof (NilEmpty.usu d) as Husu.
  destruct d; try contradiction; try subst d;
    cbn [NilEmpty.string_of_uint] in Husu |- *; cbv beta iota;
    rewrite Husu, Hstop; reflexivity.
Qed.

Lemma parse_number_text (n : Z) (rest : string) :
  closes rest = true ->
  parse_number (Number_toString n ++ rest) = Some (n, rest).
Proof.
  intro Hrest. unfold Number_toString.
  rewrite <- (DecimalZ.of_to n) at 2.
  destruct n as [| p | p]; cbn [Z.to_int NilEmpty.string_of_int].
  - apply (parse_digits_uint false Decimal.zero rest Hrest). reflexivity.
  - pose proof (to_uint_leading_digit p) as Hp.
    rewrite <- (parse_digits_uint false (Pos.to_uint p) rest Hrest)
      by (destruct (Pos.to_uint p); try exact I; contradiction).
    destruct (Pos.to_uint p); try contradiction; reflexivity.
  - pose proof (to_uint_leading_digit p) as Hp.
    rewrite <- (parse_digits_uint true (Pos.to_uint p) rest Hrest)
      by (destruct (Pos.to_uint p); try exact I; contradiction).
    reflexivity.
Qed.

(** ** Values *)

Lemma number_text_head (n : Z) :
  exists c r,
    Number_toString n = String c r /\ (is_digit c || Ascii.eqb c "-"%char) = true.
Proof.
  unfold Number_toString. destruct n as [| p | p]; cbn [Z.to_int NilEmpty.string_of_int].
  - now exists "0"%char, EmptyString.
  - pose proof (to_uint_leading_digit p) as Hp.
    destruct (Pos.to_uint p); try contradiction; cbn [NilEmpty.string_of_uint];
      do 2 eexists; split; reflexivity.
  - do 2 eexists. split; reflexivity.
Qed.

Lemma parse_value_number (fuel : nat) (c : ascii) (r : string) :
  (is_digit c || Ascii.eqb c "-"%char) = true ->
  parse_value (S fuel) (String c r)
  = match parse_number (String c r) with
    | Some (n, rest) => Some (JNum n, rest)
    | None => None
    end.
Proof.
  destruct c as [[] [] [] [] [] [] [] []]; intro H; try discriminate H; reflexivity.
Qed.

Lemma parse_value_string (fuel : nat) (r : string) :
  parse_value (S fuel) (String dquote r)
  = match parse_string_body r with
    | Some (str, rest) => Some (JStr str, rest)
    | None => None
    end.
Proof. reflexivity. Qed.

Lemma parse_value_array (fuel : nat) (d : ascii) (r : string) :
  is_ws d = false ->
  Ascii.eqb d "]"%char = false ->
  parse_value (S fuel) (String "["%char (String d r))
  = match parse_elements fuel (String d r) with
    | Some (items, rest) => Some (JArr items, rest)
    | None => None
    end.
Proof.
  intros Hws Hd. cbn [parse_value].
  change (skip_ws (String "["%char (String d r))) with (String "["%char (String d r)).
  decide_units. cbn [skip_ws]. now rewrite Hws, Hd.
Qed.

Lemma parse_value_object (fuel : nat) (d : ascii) (r : string) :
  is_ws d = false ->
  Ascii.eqb d "}"%char = false ->
  parse_value (S fuel) (String "{"%char (String d r))
  = match parse_members fuel (String d r) with
    | Some (members, rest) => Some (build_object members, rest)
    | None => None
    end.
Proof.
  intros Hws Hd. cbn [parse_value].
  change (skip_ws (String "{"%char (String d r))) with (String "{"%char (String d r)).
  decide_units. cbn [skip_ws]. now rewrite Hws, Hd.
Qed.

(** No serialised value starts with white space or a closing bracket. *)
Lemma value_text_head (v : Json) :
  exists c r,
    JSON_stringify v = String c r
    /\ is_ws c = false
    /\ Ascii.eqb c "]"%char = false
    /\ Ascii.eqb c "}"%char = false.
Proof.
  destruct v as [| [] | n | s | items | props]; cbn [JSON_stringify];
    try (do 2 eexists; repeat split; reflexivity).
  destruct (number_text_head n) as (c & r & -> & Hc). exists c, r.
  split; [reflexivity |].
  destruct c as [[] [] [] [] [] [] [] []]; try discriminate Hc; repeat split.
Qed.

Lemma concat_cons (sep a b : string) (l : list string) :
  String.concat sep (a :: b :: l) = a ++ sep ++ String.concat sep (b :: l).
Proof. reflexivity. Qed.

Lemma parse_elements_text (more : list Json) :
  forall x,
    Forall parses_back (x :: more) ->
    forallb wire_json (x :: more) = true ->
    forall fuel rest,
      (fold_right (fun y n => S (nodes y + n)) O (x :: more) <= fuel)%nat ->
      parse_elements fuel
        (String.concat "," (map JSON_stringify (x :: more)) ++ String "]"%char rest)
      = Some (x :: more, rest).
Proof.
  induction more as [| y more IH]; intros x Hall Hwire fuel rest Hfuel;
    inversion Hall as [| ? ? Hx Hmore]; subst;
    cbn [forallb] in Hwire; apply andb_true_iff in Hwire as [Hwx Hwmore];
    cbn [fold_right] in Hfuel; destruct fuel as [| fuel]; try lia;
    cbn [parse_elements map].
  - cbn [String.concat].
    rewrite (Hx Hwx fuel (String "]"%char rest)) by (reflexivity || lia).
    reflexivity.
  - rewrite concat_cons, !string_app_assoc.
    rewrite (Hx Hwx fuel) by (reflexivity || lia).
    specialize (IH y Hmore Hwmore fuel rest). cbn [map] in IH.
    cbn [append skip_ws]. decide_units.
    rewrite IH by (cbn [fold_right]; lia).
    reflexivity.
Qed.

Lemma skip_ws_quoted (k rest : string) :
  skip_ws (QuoteJSONString k ++ rest) = QuoteJSONString k ++ rest.
Proof. reflexivity. Qed.

Lemma parse_members_text (more : list (string * Json)) :
  forall kv,
    Forall (fun kv => parses_back (snd kv)) (kv :: more) ->
    forallb (fun kv => wire_json (snd kv)) (kv :: more) = true ->
    forall fuel rest,
      (fold_right (fun kv n => S (nodes (snd kv) + n)) O (kv :: more) <= fuel)%nat ->
      parse_members fuel
        (String.concat "," (map member_text (kv :: more)) ++ String "}"%char rest)
      = Some (kv :: more, rest).
Proof.
  induction more as [| kv' more IH]; intros [k v] Hall Hwire fuel rest Hfuel;
    inversion Hall as [| ? ? Hv Hmore]; subst;
    cbn [forallb snd] in Hwire; apply andb_true_iff in Hwire as [Hwv Hwmore];
    cbn [fold_right snd] in Hfuel, Hv; destruct fuel as [| fuel]; try lia;
    cbn [parse_members map]; unfold member_text at 1; cbn [fst snd].
  - cbn [String.concat].
    rewrite !string_app_assoc, skip_ws_quoted, parse_quoted.
    cbn [append skip_ws]. decide_units.
    rewrite (Hv Hwv fuel (String "}"%char rest)) by (reflexivity || lia).
    reflexivity.
  - rewrite concat_cons, !string_app_assoc, skip_ws_quoted, parse_quoted.
    cbn [append skip_ws]. decide_units.
    rewrite (Hv Hwv fuel) by (reflexivity || lia).
    specialize (IH kv' Hmore Hwmore fuel rest). cbn [map] in IH.
    cbn [skip_ws]. decide_units.
    rewrite IH by (cbn [fold_right]; lia).
    reflexivity.
Qed.

(** ** Objects with distinct property names *)

Lemma distinct_app (early late : list string) :
  distinct (early ++ late) = true ->
  distinct late = true
  /\ forall a b, In a early -> In b late -> String.eqb a b = false.
Proof.
  induction early as [| k early IH]; cbn [app distinct].
  - intro H. split; [exact H | intros a b []].
  - intro H. apply andb_true_iff in H as [Hk H]. destruct (IH H) as [Hlate Hcross].
    split; [exact Hlate |]. intros a b [<- | Ha] Hb.
    + apply negb_true_iff in Hk.
      destruct (String.eqb k b) eqn:E; [| reflexivity].
      rewrite <- Hk. symmetry. apply existsb_exists. exists b. split; [| exact E].
      apply in_or_app. now right.
    + now apply Hcross.
Qed.

Lemma define_prop_fresh (k : string) (v : Json) (props : list (string * Json)) :
  (forall k', In k' (map fst props) -> String.eqb k' k = false) ->
  define_prop k v props = (props ++ [(k, v)])%list.
Proof.
  induction props as [| [k' v'] props IH]; cbn [define_prop map fst app]; intro Hfresh.
  - reflexivity.
  - rewrite String.eqb_sym, (Hfresh k') by now left.
    rewrite IH; [reflexivity |]. intros k0 Hk0. apply Hfresh. now right.
Qed.

Lemma define_props_distinct (members props : list (string * Json)) :
  distinct (map fst (props ++ members)) = true ->
  fold_left (fun acc kv => define_prop (fst kv) (snd kv) acc) members props
  = (props ++ members)%list.
Proof.
  revert props. induction members as [| [k v] members IH]; intros props Hdistinct;
    cbn [fold_left fst snd].
  - now rewrite List.app_nil_r.
  - rewrite define_prop_fresh.
    + rewrite IH; rewrite <- List.app_assoc; [reflexivity | exact Hdistinct].
    + rewrite map_app in Hdistinct. destruct (distinct_app _ _ Hdistinct) as [_ Hcross].
      intros k' Hk'. apply Hcross; [exact Hk' | now left].
Qed.

Lemma build_object_distinct (props : list (string * Json)) :
  distinct (map fst props) = true -> build_object props = JObj props.
Proof.
  intro H. unfold build_object. now rewrite define_props_distinct.
Qed.

(** ** The round trip *)

Lemma parse_value_text (v : Json) : parses_back v.
Proof.
  induction v as [| b | n | s | items IH | props IH] using Json_ind;
    intros Hwire fuel rest Hfuel Hrest;
    (destruct fuel as [| fuel]; [cbn [nodes] in Hfuel; lia |]).
  - reflexivity.
  - destruct b; reflexivity.
  - cbn [JSON_stringify].
    destruct (number_text_head n) as (c & r & Htext & Hc).
    pose proof (parse_number_text n rest Hrest) as Hparse.
    rewrite Htext in Hparse |- *. cbn [append] in Hparse |- *.
    now rewrite (parse_value_number fuel c _ Hc), Hparse.
  - cbn [JSON_stringify]. unfold QuoteJSONString. cbn [append].
    rewrite parse_value_string, string_app_assoc. cbn [append].
    now rewrite parse_escaped_units.
  - cbn [JSON_stringify wire_json nodes] in *.
    destruct items as [| x more].
    + reflexivity.
    + cbn [append]. rewrite string_app_assoc.
      pose proof (parse_elements_text more x IH Hwire fuel rest) as Hparse.
      destruct (value_text_head x) as (c & r & Htext & Hws & Hclose & _).
      assert (Hhead : exists r',
                 String.concat "," (map JSON_stringify (x :: more)) ++ "]" ++ rest
                 = String c r').
      { cbn [map]. destruct more as [| y more'].
        - cbn [String.concat map]. rewrite Htext. cbn [append]. eauto.
        - cbn [map]. rewrite concat_cons, Htext. cbn [append]. eauto. }
      destruct Hhead as (r' & Hhead).
      change ("]" ++ rest) with (String "]"%char rest) in Hhead |- *.
      rewrite Hhead in Hparse |- *.
      rewrite (parse_value_array fuel c r' Hws Hclose), Hparse by lia.
      reflexivity.
  - cbn [JSON_stringify wire_json nodes] in *.
    apply andb_true_iff in Hwire as [Hdistinct Hwire].
    destruct props as [| kv more].
    + reflexivity.
    + change (map (fun kv0 => QuoteJSONString (fst kv0) ++ ":" ++ JSON_stringify (snd kv0)))
        with (map member_text).
      cbn [append]. rewrite string_app_assoc.
      pose proof (parse_members_text more kv IH Hwire fuel rest) as Hparse.
      assert (Hhead : exists r',
                 String.concat "," (map member_text (kv :: more)) ++ "}" ++ rest
                 = String dquote r').
      { cbn [map]. destruct more as [| kv' more'].
        - cbn [String.concat map]. unfold member_text, QuoteJSONString.
          cbn [append]. eauto.
        - cbn [map]. rewrite concat_cons. unfold member_text at 1, QuoteJSONString.
          cbn [append]. eauto. }
      destruct Hhead as (r' & Hhead).
      change ("}" ++ rest) with (String "}"%char rest) in Hhead |- *.
      rewrite Hhead in Hparse |- *.
      rewrite (parse_value_object fuel dquote r' eq_refl eq_refl), Hparse by lia.
      now rewrite build_object_distinct.
Qed.

Lemma joined_length_bound {A : Type} (size : A -> nat) (text : A -> string) (items : list A) :
  Forall (fun x => (size x <= String.length (text x))%nat) items ->
  (fold_right (fun x n => S (size x + n)) O items
   <= String.length (String.concat "," (map text items)) + 1)%nat.
Proof.
  induction 1 as [| x more Hx Hmore IH]; cbn [fold_right map].
  - cbn. lia.
  - destruct more as [| y more].
    + cbn [fold_right map String.concat]. lia.
    + cbn [map] in IH |- *. rewrite concat_cons, !string_length_app.
      cbn [String.length]. cbn [fold_right] in IH |- *. lia.
Qed.

Lemma nodes_le_length (v : Json) : (nodes v <= String.length (JSON_stringify v))%nat.
Proof.
  induction v as [| b | n | s | items IH | props IH] using Json_ind;
    cbn [nodes JSON_stringify].
  - cbn. lia.
  - destruct b; cbn; lia.
  - destruct (number_text_head n) as (c & r & -> & _). cbn [String.length]. lia.
  - unfold QuoteJSONString. cbn [String.length]. lia.
  - pose proof (joined_length_bound nodes JSON_stringify items IH) as H.
    cbn [append String.length]. rewrite string_length_app. cbn [String.length]. lia.
  - change (map (fun kv => QuoteJSONString (fst kv) ++ ":" ++ JSON_stringify (snd kv)))
      with (map member_text).
    assert (Hmembers : Forall (fun kv => (nodes (snd kv) <= String.length (member_text kv))%nat)
                         props).
    { eapply Forall_impl; [| exact IH]. intros [k v] Hv. cbn [snd] in *.
      unfold member_text. cbn [fst snd]. rewrite !string_length_app. lia. }
    pose proof (joined_length_bound (fun kv => nodes (snd kv)) member_text props Hmembers) as H.
    cbn [append String.length]. rewrite string_length_app. cbn [String.length]. lia.
Qed.

(** Parsing the text of a wire value gives the value back. *)
Lemma JSON_parse_stringify (v : Json) :
  wire_json v = true -> JSON_parse (JSON_stringify v) = Some v.
Proof.
  intro Hwire. unfold JSON_parse.
  pose proof (parse_value_text v Hwire (S (String.length (JSON_stringify v))) "") as Hparse.
  rewrite string_app_empty in Hparse. rewrite Hparse.
  - reflexivity.
  - pose proof (nodes_le_length v). lia.
  - reflexivity.
Qed.

(** ** What the dispatch assigns is a wire value *)

Lemma fetchVoucherStatus_by_email_results (customerEmail : JsValue) (v : Json) :
  fetchVoucherStatus_by_email customerEmail = Normal v ->
  v = loyalty_active \/ v = loyalty_redeemed \/ v = not_found.
Proof.
  unfold fetchVoucherStatus_by_email.
  destruct (ToBoolean customerEmail); [| intros [= <-]; auto].
  destruct (call_toLowerCase customerEmail) as [email | e]; cbn [bind]; [| discriminate].
  destruct (String.eqb email "active@example.com"); [intros [= <-]; auto |].
  destruct (String.eqb email "expired@example.com"); intros [= <-]; auto.
Qed.

Lemma fetchVoucherStatus_results (args : JsValue) (v : Json) :
  fetchVoucherStatus args = Normal v ->
  v = voucher_active \/ v = voucher_expired
  \/ v = loyalty_active \/ v = loyalty_redeemed \/ v = not_found.
Proof.
  unfold fetchVoucherStatus.
  destruct (RequireObjectCoercible args) as [o | e]; cbn [bind]; [| discriminate].
  destruct (ToBoolean (Get o "voucherId")).
  - destruct (call_toUpperCase (Get o "voucherId")) as [u | e]; cbn [bind]; [| discriminate].
    destruct (String.eqb u "VOUCHER123"); [intros [= <-]; auto |].
    destruct (String.eqb u "EXPIRED456"); [intros [= <-]; auto |].
    intro H. apply fetchVoucherStatus_by_email_results in H. tauto.
  - intro H. apply fetchVoucherStatus_by_email_results in H. tauto.
Qed.

Lemma RequireObjectCoercible_wire (args : JsValue) (o : Json) :
  wire_args args = true -> RequireObjectCoercible args = Normal o -> wire_json o = true.
Proof.
  destruct args as [[] |]; cbn; intros Hwire [= <-]; exact Hwire.
Qed.

Lemma functionResult_wire (now : Z) (fc : FunctionCall) (v : Json) :
  wire_args (fc_args fc) = true ->
  functionResult now fc = Normal v ->
  wire_json v = true.
Proof.
  intro Hwire. unfold functionResult.
  destruct (String.eqb (fc_name fc) "get_voucher_status").
  - destruct (fetchVoucherStatus (fc_args fc)) as [w | e] eqn:E; cbn [try_catch].
    + intros [= <-]. apply fetchVoucherStatus_results in E.
      destruct E as [-> | [-> | [-> | [-> | ->]]]]; reflexivity.
    + intros [= <-]. reflexivity.
  - destruct (String.eqb (fc_name fc) "insert_daily_report").
    + unfold submitDailyReport.
      destruct (RequireObjectCoercible (fc_args fc)) as [o | e] eqn:E;
        cbn [bind try_catch].
      * apply (RequireObjectCoercible_wire _ _ Hwire) in E.
        destruct (not_a_number_or_negative (Get o "issuedVouchers")); cbn [try_catch];
          intros [= <-]; [reflexivity |].
        cbn [wire_json map fst snd forallb]. rewrite E. reflexivity.
      * intros [= <-]. reflexivity.
    + intros [= <-]. reflexivity.
Qed.



(** * Further properties of the handlers *)

Lemma fetchVoucherStatus_unmatched_id (props : list (string * Json)) :
  unmatched ["VOUCHER123"; "EXPIRED456"] (lookup "voucherId" props) ->
  fetchVoucherStatus (Some (JObj props))
  = fetchVoucherStatus_by_email (lookup "customerEmail" props).
Proof.
  intro Hid.
  destruct (lookup "voucherId" props) as [[| | | v | |] |] eqn:E;
    cbn [unmatched] in Hid; try contradiction.
  - inversion Hid as [| ? ? Hactive H']; subst.
    inversion H' as [| ? ? Hexpired _]; subst.
    destruct (String.eqb v "") eqn:Ev.
    + apply fetchVoucherStatus_without_id. rewrite E. cbn. now rewrite Ev.
    + rewrite (fetchVoucherStatus_with_id props v E Ev).
      destruct (String.eqb (toUpperCase v) "VOUCHER123") eqn:E1.
      { apply String.eqb_eq in E1. elim Hactive. now apply casing_of_toUpperCase. }
      destruct (String.eqb (toUpperCase v) "EXPIRED456") eqn:E2.
      { apply String.eqb_eq in E2. elim Hexpired. now apply casing_of_toUpperCase. }
      reflexivity.
  - apply fetchVoucherStatus_without_id. now rewrite E.
Qed.

(** X1. The expired fixtures are matched whatever the case of the letters:
    a [voucherId] that is any casing of [EXPIRED456] gives the expired
    voucher, whatever else the arguments hold; and when [voucherId] is
    missing or matches no code, a [customerEmail] that is any casing of
    [expired@example.com] gives the redeemed voucher, one that is any
    casing of [active@example.com] the loyalty voucher. *)
Theorem expired_fixtures_ignore_case :
  (forall props v,
      lookup "voucherId" props = Some (JStr v) ->
      casing_of "EXPIRED456" v ->
      fetchVoucherStatus (Some (JObj props))
      = Normal (JObj [("status", JStr "expired");
                      ("reason", JStr "Voucher has passed its expiry date.")]))
  /\ (forall props e,
         unmatched ["VOUCHER123"; "EXPIRED456"] (lookup "voucherId" props) ->
         lookup "customerEmail" props = Some (JStr e) ->
         (casing_of "expired@example.com" e ->
          fetchVoucherStatus (Some (JObj props))
          = Normal (JObj [("status", JStr "expired");
                          ("reason",
                           JStr "Voucher was a one-time use and has been redeemed.")]))
         /\ (casing_of "active@example.com" e ->
             fetchVoucherStatus (Some (JObj props))
             = Normal (JObj [("status", JStr "active");
                             ("discount", JStr "10% loyalty voucher");
                             ("expires", JStr "2025-01-31")]))).
Proof.
  split.
  - intros props v Hid Hv.
    rewrite (fetchVoucherStatus_with_id props v Hid (casing_of_nonempty _ _ _ Hv)).
    now rewrite (toUpperCase_casing _ _ Hv).
  - intros props e Hid Hmail.
    rewrite (fetchVoucherStatus_unmatched_id props Hid), Hmail.
    split; intro He;
      now rewrite (fetchVoucherStatus_by_email_casing _ e _ _ eq_refl He).
Qed.

Lemma expired_fixtures_ignore_case_witness :
  fetchVoucherStatus
    (Some (JObj [("customerEmail", JStr "active@example.com"); ("voucherId", JStr "Expired456")]))
  = Normal voucher_expired
  /\ fetchVoucherStatus
       (Some (JObj [("voucherId", JStr "nope"); ("customerEmail", JStr "EXPIRED@Example.com")]))
     = Normal loyalty_redeemed.
Proof.
  destruct expired_fixtures_ignore_case as (Hid & Hmail). split.
  - apply (Hid [("customerEmail", JStr "active@example.com"); ("voucherId", JStr "Expired456")]
             "Expired456").
    + reflexivity.
    + apply casing_of_toUpperCase. reflexivity.
  - apply (Hmail [("voucherId", JStr "nope"); ("customerEmail", JStr "EXPIRED@Example.com")]
             "EXPIRED@Example.com").
    + repeat constructor; intro H; apply toUpperCase_casing in H; discriminate H.
    + reflexivity.
    + apply casing_of_toUpperCase. reflexivity.
Defined.

Lemma fetchVoucherStatus_by_email_throws_iff (customerEmail : JsValue) :
  (exists e, fetchVoucherStatus_by_email customerEmail = Throw e)
  <-> truthy_non_string customerEmail = true.
Proof.
  unfold fetchVoucherStatus_by_email, truthy_non_string.
  destruct customerEmail as [[| b | n | s | items | props] |];
    cbn [ToBoolean call_toLowerCase bind is_string negb andb].
  - split; [intros [e H]; discriminate H | discriminate].
  - destruct b; cbn [bind].
    + split; [reflexivity | eauto].
    + split; [intros [e H]; discriminate H | discriminate].
  - destruct (negb (n =? 0)); cbn [bind andb].
    + split; [reflexivity | eauto].
    + split; [intros [e H]; discriminate H | discriminate].
  - rewrite andb_false_r. split; [| discriminate]. intros [e H].
    destruct (negb (String.eqb s "")); cbn [bind] in H; [| discriminate H].
    destruct (String.eqb (toLowerCase s) "active@example.com"); [discriminate H |].
    destruct (String.eqb (toLowerCase s) "expired@example.com"); discriminate H.
  - split; [reflexivity | eauto].
  - split; [reflexivity | eauto].
  - split; [intros [e H]; discriminate H | discriminate].
Qed.

Lemma fetchVoucherStatus_object_throws_iff (o : Json) :
  RequireObjectCoercible (Some o) = Normal o ->
  (exists e, fetchVoucherStatus (Some o) = Throw e)
  <-> truthy_non_string (Get o "voucherId")
      || (negb (known_code (Get o "voucherId"))
          && truthy_non_string (Get o "customerEmail")) = true.
Proof.
  intro Ho. unfold fetchVoucherStatus. rewrite Ho. cbn [bind].
  pose proof (fetchVoucherStatus_by_email_throws_iff (Get o "customerEmail")) as Hmail.
  unfold truthy_non_string at 1.
  destruct (Get o "voucherId") as [[| b | n | s | items | props] |];
    cbn [ToBoolean call_toUpperCase bind is_string negb andb orb known_code].
  - exact Hmail.
  - destruct b; cbn [bind orb]; [split; [reflexivity | eauto] | exact Hmail].
  - destruct (negb (n =? 0)); cbn [bind orb]; [split; [reflexivity | eauto] | exact Hmail].
  - rewrite andb_false_r. cbn [orb].
    destruct (String.eqb s "") eqn:Es; cbn [negb bind].
    + apply String.eqb_eq in Es. subst s. exact Hmail.
    + destruct (String.eqb (toUpperCase s) "VOUCHER123"); cbn [orb negb andb].
      { split; [intros [e H]; discriminate H | discriminate]. }
      destruct (String.eqb (toUpperCase s) "EXPIRED456"); cbn [orb negb andb].
      { split; [intros [e H]; discriminate H | discriminate]. }
      exact Hmail.
  - split; [reflexivity | eauto].
  - split; [reflexivity | eauto].
  - exact Hmail.
Qed.

(** X2. [fetchVoucherStatus] throws exactly on these arguments: [args]
    missing or [null]; a [voucherId] that is truthy and not a string (a
    non-zero number, [true], an array, an object); or, when [voucherId] is
    no known code, a [customerEmail] that is truthy and not a string. On
    every other argument it returns. *)
Theorem fetchVoucherStatus_throws_iff (args : JsValue) :
  (exists e, fetchVoucherStatus args = Throw e) <-> fetch_faults args = true.
Proof.
  destruct args as [o |].
  - destruct o; try (apply fetchVoucherStatus_object_throws_iff; reflexivity).
    split; [reflexivity | intros _; cbn; eauto].
  - split; [reflexivity | intros _; cbn; eauto].
Qed.

(** X3. Arguments that are a primitive or an array (anything but [null]
    and an object) make no handler throw: no property can be read from
    them, so [fetchVoucherStatus] answers [not_found] and
    [submitDailyReport] answers with its validation error. *)
Theorem handlers_on_arguments_that_are_no_object (now : Z) (o : Json) :
  not_an_object o = true ->
  fetchVoucherStatus (Some o) = Normal not_found
  /\ submitDailyReport now (Some o) = Normal invalid_report.
Proof.
  destruct o; intro H; try discriminate H; split; reflexivity.
Qed.

Lemma handlers_on_arguments_that_are_no_object_witness :
  fetchVoucherStatus (Some (JArr [JStr "VOUCHER123"])) = Normal not_found
  /\ submitDailyReport 0 (Some (JArr [JStr "VOUCHER123"])) = Normal invalid_report.
Proof.
  apply (handlers_on_arguments_that_are_no_object 0 (JArr [JStr "VOUCHER123"])).
  reflexivity.
Defined.

(** X4. Whatever it is given, [fetchVoucherStatus] returns nothing but one
    of its five fixed payloads: the status is [active], [expired] or
    [not_found], an active voucher always has a discount and an expiry
    date, and no payload has an [error] property. *)
Theorem fetchVoucherStatus_returns_a_fixture (args : JsValue) (v : Json) :
  fetchVoucherStatus args = Normal v ->
  In v [voucher_active; voucher_expired; loyalty_active; loyalty_redeemed; not_found]
  /\ In (Get v "status")
        [Some (JStr "active"); Some (JStr "expired"); Some (JStr "not_found")]
  /\ (Get v "status" = Some (JStr "active") ->
      Get v "discount" <> undefined /\ Get v "expires" <> undefined)
  /\ Get v "error" = undefined.
Proof.
  intro H. apply fetchVoucherStatus_results in H.
  destruct H as [-> | [-> | [-> | [-> | ->]]]]; cbn;
    repeat split; auto 10; try discriminate.
Qed.

Lemma fetchVoucherStatus_returns_a_fixture_witness :
  In loyalty_redeemed
    [voucher_active; voucher_expired; loyalty_active; loyalty_redeemed; not_found]
  /\ In (Get loyalty_redeemed "status")
        [Some (JStr "active"); Some (JStr "expired"); Some (JStr "not_found")]
  /\ (Get loyalty_redeemed "status" = Some (JStr "active") ->
      Get loyalty_redeemed "discount" <> undefined
      /\ Get loyalty_redeemed "expires" <> undefined)
  /\ Get loyalty_redeemed "error" = undefined.
Proof.
  apply (fetchVoucherStatus_returns_a_fixture
           (Some (JObj [("customerEmail", JStr "Expired@Example.com")]))).
  reflexivity.
Defined.

Lemma submitDailyReport_returns (now : Z) (args : JsValue) (v : Json) :
  submitDailyReport now args = Normal v ->
  (Get v "status" = Some (JStr "error") \/ Get v "status" = Some (JStr "success"))
  /\ Get v "error" = undefined.
Proof.
  unfold submitDailyReport.
  destruct (RequireObjectCoercible args) as [o | e]; cbn [bind]; [| discriminate].
  destruct (not_a_number_or_negative (Get o "issuedVouchers")); intros [= <-]; cbn; auto.
Qed.

Lemma fetchVoucherStatus_no_error (args : JsValue) (v : Json) :
  fetchVoucherStatus args = Normal v -> Get v "error" = undefined.
Proof.
  intro H. apply fetchVoucherStatus_results in H.
  destruct H as [-> | [-> | [-> | [-> | ->]]]]; reflexivity.
Qed.

(** X5. [submitDailyReport] throws exactly when [args] is missing or
    [null]; on any other argument it returns, and then with status
    [error] or [success] and nothing else. *)
Theorem submitDailyReport_throws_iff (now : Z) (args : JsValue) :
  ((exists e, submitDailyReport now args = Throw e) <-> nullish args = true)
  /\ (forall v,
         submitDailyReport now args = Normal v ->
         (Get v "status" = Some (JStr "error") \/ Get v "status" = Some (JStr "success"))
         /\ Get v "error" = undefined).
Proof.
  split; [| apply submitDailyReport_returns].
  unfold submitDailyReport.
  destruct args as [o |]; [destruct o |]; cbn [RequireObjectCoercible bind nullish];
    try (split; [reflexivity | eauto]);
    (split; [| discriminate]); intros [e H];
    destruct (not_a_number_or_negative _); discriminate H.
Qed.

(** X6. Only [issuedVouchers] is validated: two calls of
    [submitDailyReport] whose arguments agree on [issuedVouchers] get the
    same status, whatever their other properties and whenever they run. *)
Theorem submitDailyReport_checks_issuedVouchers_only
    (now1 now2 : Z) (o1 o2 v1 v2 : Json) :
  Get o1 "issuedVouchers" = Get o2 "issuedVouchers" ->
  submitDailyReport now1 (Some o1) = Normal v1 ->
  submitDailyReport now2 (Some o2) = Normal v2 ->
  Get v1 "status" = Get v2 "status".
Proof.
  unfold submitDailyReport. intros Hsame.
  destruct o1; destruct o2; cbn [RequireObjectCoercible bind]; try discriminate;
    rewrite Hsame; destruct (not_a_number_or_negative _);
    intros [= <-] [= <-]; reflexivity.
Qed.

Lemma submitDailyReport_checks_issuedVouchers_only_witness :
  Get (report_accepted "report_5"
         (JObj [("issuedVouchers", JNum 3); ("partnershipVouchers", JStr "not a list")]))
      "status"
  = Get (report_accepted "report_9" (JObj [("issuesNote", JNum 0); ("issuedVouchers", JNum 3)]))
      "status".
Proof.
  apply (submitDailyReport_checks_issuedVouchers_only 5 9
           (JObj [("issuedVouchers", JNum 3); ("partnershipVouchers", JStr "not a list")])
           (JObj [("issuesNote", JNum 0); ("issuedVouchers", JNum 3)]));
    reflexivity.
Defined.

(** * Further properties of the dispatcher *)

(** X7. A payload assigned to [functionResult] has an [error] property
    exactly when the handler of the request threw: a handler that returns
    never produces one, and neither does the fallback branch. *)
Theorem error_property_iff_handler_threw (now : Z) (fc : FunctionCall) (v : Json) :
  functionResult now fc = Normal v ->
  (Get v "error" <> undefined <-> handler_threw now fc).
Proof.
  unfold functionResult, handler_threw.
  destruct (String.eqb (fc_name fc) "get_voucher_status") eqn:E1.
  - apply String.eqb_eq in E1.
    destruct (fetchVoucherStatus (fc_args fc)) as [w | e] eqn:Ew; cbn [try_catch];
      intros [= <-].
    + rewrite (fetchVoucherStatus_no_error _ _ Ew). split; [intro H; now elim H |].
      intros [(_ & e & He) | (Hn & _)]; [discriminate He |].
      rewrite E1 in Hn. discriminate Hn.
    + split; [intros _; left; eauto | intros _; discriminate].
  - destruct (String.eqb (fc_name fc) "insert_daily_report") eqn:E2.
    + apply String.eqb_eq in E2.
      destruct (submitDailyReport now (fc_args fc)) as [w | e] eqn:Ew; cbn [try_catch];
        intros [= <-].
      * destruct (submitDailyReport_returns _ _ _ Ew) as (_ & Herr).
        rewrite Herr. split; [intro H; now elim H |].
        intros [(Hn & _) | (_ & e & He)]; [| discriminate He].
        rewrite E2 in Hn. discriminate Hn.
      * split; [intros _; right; eauto | intros _; discriminate].
    + intros [= <-]. split; [intro H; now elim H |].
      apply String.eqb_neq in E1, E2. intros [(Hn & _) | (Hn & _)]; contradiction.
Qed.

Lemma error_property_iff_handler_threw_witness :
  Get fetch_failed "error" <> undefined
  <-> handler_threw 800 (call "x" "get_voucher_status" (Some (JObj [("voucherId", JNum 7)]))).
Proof.
  apply (error_property_iff_handler_threw 800
           (call "x" "get_voucher_status" (Some (JObj [("voucherId", JNum 7)])))).
  reflexivity.
Defined.

Lemma answers_functional (t0 : Z) (fc : FunctionCall) (fr fr' : FunctionResponse) :
  answers t0 fc fr -> answers t0 fc fr' -> fr = fr'.
Proof.
  intros (Hid & Hname & v & Hv & Htext) (Hid' & Hname' & v' & Hv' & Htext').
  rewrite Hv in Hv'. injection Hv' as <-.
  destruct fr, fr'. cbn in *. congruence.
Qed.




Lemma filter_of_filter {A : Type} (p q : A -> bool) (b : bool) (l : list A) :
  (forall x, p x = true -> q x = b) ->
  filter p (filter q l) = if b then filter p l else [].
Proof.
  intro Hpq. induction l as [| x l IH]; cbn [filter].
  - now destruct b.
  - destruct (p x) eqn:Hp.
    + rewrite (Hpq x Hp). destruct b; cbn [filter]; [now rewrite Hp, IH | exact IH].
    + destruct (q x); cbn [filter]; [rewrite Hp |]; exact IH.
Qed.

Lemma named_completion_order (tool : string) (batch : list FunctionCall) :
  filter (named tool) (completion_order batch) = filter (named tool) batch.
Proof.
  unfold completion_order. rewrite !filter_app.
  assert (Hname : forall (q : FunctionCall -> bool),
             (forall fc fc', fc_name fc = fc_name fc' -> q fc = q fc') ->
             forall fc, named tool fc = true -> q fc = q (call "" tool None)).
  { intros q Hq fc Hfc. apply Hq. now apply String.eqb_eq in Hfc. }
  assert (Hdelay : forall fc fc', fc_name fc = fc_name fc' -> awaited_delay fc = awaited_delay fc').
  { intros fc fc' Heq. unfold awaited_delay. now rewrite Heq. }
  rewrite (filter_of_filter (named tool) unawaited (unawaited (call "" tool None)))
    by (apply Hname; intros fc fc' Heq; unfold unawaited; now rewrite (Hdelay _ _ Heq)).
  rewrite (filter_of_filter (named tool) (awaits submitDailyReport_delay)
             (awaits submitDailyReport_delay (call "" tool None)))
    by (apply Hname; intros fc fc' Heq; unfold awaits; now rewrite (Hdelay _ _ Heq)).
  rewrite (filter_of_filter (named tool) (awaits fetchVoucherStatus_delay)
             (awaits fetchVoucherStatus_delay (call "" tool None)))
    by (apply Hname; intros fc fc' Heq; unfold awaits; now rewrite (Hdelay _ _ Heq)).
  destruct (awaited_delay_cases (call "" tool None))
    as [(_ & -> & -> & ->) | [(_ & -> & -> & ->) | (_ & -> & -> & ->)]];
    cbn [app]; now rewrite ?List.app_nil_r.
Qed.

Lemma answers_of_named (t0 : Z) (tool : string) (order : list FunctionCall)
    (responses : list FunctionResponse) :
  Forall2 (answers t0) order responses ->
  map fr_id (filter (answer_named tool) responses) = map fc_id (filter (named tool) order).
Proof.
  induction 1 as [| fc fr l l' (Hid & Hname & _) _ IH]; cbn [filter map].
  - reflexivity.
  - assert (Hsame : answer_named tool fr = named tool fc)
      by (unfold answer_named, named; now rewrite Hname).
    rewrite Hsame. destruct (named tool fc); cbn [map]; [now rewrite Hid, IH | exact IH].
Qed.

(** X9. The entries of one tool keep their request order: among the
    responses sent, those named [tool] carry the ids of the requests named
    [tool] in the order in which these came in the batch. *)
Theorem entries_of_one_tool_keep_request_order
    (t0 : Z) (batch : list FunctionCall) (tool : string) :
  exists responses,
    onToolCall t0 batch = Sent responses
    /\ map fr_id (filter (answer_named tool) responses)
       = map fc_id (filter (named tool) batch).
Proof.
  destruct (onToolCall_sends t0 batch) as (responses & Hsent & Hall).
  exists responses. split; [exact Hsent |].
  now rewrite (answers_of_named _ tool _ _ Hall), named_completion_order.
Qed.



(** ** The log *)

Lemma start_callback_returns (st : Dispatch) (fc : FunctionCall) :
  exists st', start_callback st fc = Normal st'.
Proof.
  unfold start_callback, settle. destruct (awaited_delay fc); [eauto |].
  destruct (functionResult_assigned (clock st) fc) as [result ->]. cbn [bind]. eauto.
Qed.

Lemma start_callbacks_logged_turns (calls : list FunctionCall) :
  forall st turns,
    start_callbacks_logged calls st turns
    = ((turns ++ map trigger_turn calls)%list, start_callbacks calls st).
Proof.
  induction calls as [| fc rest IH]; intros st turns; cbn [start_callbacks_logged
    start_callbacks map].
  - now rewrite List.app_nil_r.
  - destruct (start_callback_returns st fc) as [st' ->]. cbn [bind].
    now rewrite IH, <- List.app_assoc.
Qed.

(** X11. For a batch of N requests the listener makes N [addTurn] calls
    with the trigger entries of the requests, in request order, and then,
    unless the batch is empty, one with the summary of the responses it
    sends; on an empty batch it logs nothing and still sends the empty
    batch. What it sends is what [onToolCall] sends: logging changes
    nothing. *)
Theorem log_of_one_event (t0 : Z) (batch : list FunctionCall) :
  exists responses,
    onToolCall t0 batch = Sent responses
    /\ onToolCall_logged t0 batch
       = ((map trigger_turn batch
             ++ match batch with
                | [] => []
                | _ :: _ => [summary_turn responses]
                end)%list,
          Sent responses)
    /\ (batch = [] -> responses = []).
Proof.
  destruct (onToolCall_sends t0 batch) as (responses & Hsent & Hall).
  exists responses. split; [exact Hsent |].
  assert (Hlen : List.length responses = List.length batch).
  { rewrite <- (Forall2_length Hall). symmetry.
    apply Permutation_length, completion_order_permutation. }
  split.
  - unfold onToolCall_logged. rewrite start_callbacks_logged_turns. cbn [app].
    unfold onToolCall in Hsent.
    destruct (st <- start_callbacks batch
                      {| clock := t0; timers := []; functionResponses := [] |} ;;
              run_timers (timers st) (functionResponses st)) as [rs | e];
      [| discriminate Hsent].
    injection Hsent as ->.
    destruct responses, batch; try discriminate Hlen; [now rewrite List.app_nil_r | reflexivity].
  - intros ->. now destruct responses.
Qed.

(** X12. For a batch whose arguments are wire data, re-parsing a response
    for the summary never falls back to the raw string: every element of
    [parsedResponsesForLogging] holds the id and name of its request and,
    under [response.result], the value the dispatch assigned for it. *)
Theorem summary_shows_structured_results (t0 : Z) (batch : list FunctionCall) :
  Forall (fun fc => wire_args (fc_args fc) = true) batch ->
  exists responses order,
    onToolCall t0 batch = Sent responses
    /\ Permutation batch order
    /\ Forall2
         (fun fc fr =>
            exists result,
              functionResult (resumes_at t0 fc) fc = Normal result
              /\ parsed_for_logging fr = entry_object (fc_id fc) (fc_name fc) result)
         order responses.
Proof.
  intro Hwire.
  destruct (onToolCall_sends t0 batch) as (responses & Hsent & Hall).
  pose proof (completion_order_permutation batch) as Hperm.
  exists responses, (completion_order batch). repeat split; auto.
  assert (Hwire' : Forall (fun fc => wire_args (fc_args fc) = true) (completion_order batch)).
  { rewrite Forall_forall in Hwire |- *. intros fc Hfc. apply Hwire.
    eapply Permutation_in; [symmetry; exact Hperm | exact Hfc]. }
  clear Hsent Hperm Hwire.
  induction Hall as [| fc fr l l' (Hid & Hname & result & Hres & Htext) _ IH].
  - constructor.
  - inversion Hwire' as [| ? ? Hfc Hl]; subst. constructor; [| now apply IH].
    exists result. split; [exact Hres |].
    unfold parsed_for_logging.
    rewrite Htext, (JSON_parse_stringify _ (functionResult_wire _ _ _ Hfc Hres)).
    now rewrite Hid, Hname.
Qed.

Lemma summary_shows_structured_results_witness :
  exists responses order,
    onToolCall 1000 mixed_batch = Sent responses
    /\ Permutation mixed_batch order
    /\ Forall2
         (fun fc fr =>
            exists result,
              functionResult (resumes_at 1000 fc) fc = Normal result
              /\ parsed_for_logging fr = entry_object (fc_id fc) (fc_name fc) result)
         order responses.
Proof.
  apply (summary_shows_structured_results 1000 mixed_batch).
  repeat constructor.
Defined.

(** ** The tool tables and the dispatcher *)

(** X13. The two tool tables and the dispatcher agree:
    [customerSupportTools] is [AVAILABLE_TOOLS] followed by
    [get_voucher_status] and [insert_daily_report]; its tool names differ
    pairwise; every tool is enabled and scheduled to interrupt; and a
    request for one of its tools takes the fallback branch exactly when
    the tool is one of [AVAILABLE_TOOLS], so both added tools reach a
    handler. *)
Theorem tool_tables_agree_with_dispatch :
  customerSupportTools = (AVAILABLE_TOOLS ++ [get_voucher_status; insert_daily_report])%list
  /\ NoDup (map name customerSupportTools)
  /\ Forall (fun tool => isEnabled tool = true /\ scheduling tool = INTERRUPT)
       customerSupportTools
  /\ (forall tool id args,
         In tool customerSupportTools ->
         (awaited_delay (call id (name tool) args) = None
          <-> In (name tool) (map name AVAILABLE_TOOLS))).
Proof.
  split; [reflexivity |]. split; [| split].
  - repeat constructor; cbn; intuition discriminate.
  - repeat constructor.
  - intros tool id args [<- | [<- | [<- | [<- | []]]]]; cbn;
      (split; [intros _; auto | intros _; reflexivity])
      || (split; [discriminate | intros [H | [H | []]]; discriminate H]).
Qed.

(** ** The clock *)

Lemma answers_same_order (t0 t1 : Z) (order : list FunctionCall)
    (rs0 rs1 : list FunctionResponse) :
  Forall (fun fc => functionResult (resumes_at t0 fc) fc = functionResult (resumes_at t1 fc) fc)
    order ->
  Forall2 (answers t0) order rs0 ->
  Forall2 (answers t1) order rs1 ->
  rs0 = rs1.
Proof.
  intros Hsame H0. revert rs1.
  induction H0 as [| fc fr l l' Hfr _ IH]; intros rs1 H1; inversion H1 as [| ? fr' ? ? Hfr' Hl']; subst.
  - reflexivity.
  - inversion Hsame as [| ? ? Hfc Hl]; subst. f_equal; [| now apply IH].
    apply (answers_functional t0 fc); [exact Hfr |].
    destruct Hfr' as (Hid & Hname & v & Hv & Htext). repeat split; auto.
    exists v. now rewrite Hfc.
Qed.

(** X14. The clock enters a response only through the [reportId] of a
    report: a batch without [insert_daily_report] requests is answered
    with the same responses, in the same order, whenever it arrives. *)
Theorem responses_without_reports_ignore_the_clock
    (t0 t1 : Z) (batch : list FunctionCall) :
  Forall (fun fc => fc_name fc <> "insert_daily_report") batch ->
  onToolCall t0 batch = onToolCall t1 batch.
Proof.
  intro Hnames.
  destruct (onToolCall_sends t0 batch) as (rs0 & -> & H0).
  destruct (onToolCall_sends t1 batch) as (rs1 & -> & H1).
  f_equal. apply (answers_same_order t0 t1 (completion_order batch)); auto.
  apply Forall_forall. intros fc Hfc.
  assert (Hin : In fc batch).
  { eapply Permutation_in; [symmetry; apply completion_order_permutation | exact Hfc]. }
  rewrite Forall_forall in Hnames. specialize (Hnames fc Hin).
  apply String.eqb_neq in Hnames. unfold functionResult. now rewrite Hnames.
Qed.

Lemma responses_without_reports_ignore_the_clock_witness :
  onToolCall 0 lookups_batch = onToolCall 86400000 lookups_batch.
Proof.
  apply (responses_without_reports_ignore_the_clock 0 86400000 lookups_batch).
  repeat constructor; discriminate.
Defined.
